(** * Document formatter of the PowerShell extension

    A shallow embedding of [src/features/DocumentFormatter.ts]: the class
    [PSDocumentFormattingEditProvider] with its rule scheduler
    ([executeRulesInOrder]), the marker de-duplication it performs on every
    response of the analysis service, the edit applicator ([applyEdit]) and
    the settings builder ([getSettings]).

    Conventions of the embedding.
    - JavaScript numbers that hold line, column and offset values are
      integers; they are modelled as [Z] (the code only compares them and
      subtracts one).
    - Indices into the rule list and into marker arrays are [nat].
    - A JavaScript exception is a value [Throw e] of the [result] type: the
      [TypeError] of a property read on [undefined], and the illegal
      argument error of [new vscode.Range] for a negative line or
      character.
    - Calls that leave the module (the marker request, the editor's
      [edit]) are recorded in a log of [Event]s; the analysis service is a
      function of that log. *)

From Stdlib Require Import String Ascii.
From Stdlib Require Import List ZArith Arith Bool Lia.
From Stdlib Require Import Sorting.Sorted Sorting.Permutation.
From Stdlib Require DecimalString DecimalZ DecimalPos.
From Equations Require Import Equations.
Import ListNotations.

Set Implicit Arguments.
Local Open Scope Z_scope.

(** ** Exceptions *)

Inductive JsError : Type :=
| TypeError                      (* property access on undefined *)
| IllegalArgument                (* new vscode.Range with a negative number *)
| RequestFailed (reason : string). (* the marker request was rejected *)

Inductive result (A : Type) : Type :=
| Ok (value : A)
| Throw (e : JsError).

Arguments Ok {A} value.
Arguments Throw {A} e.

Definition bind {A B : Type} (r : result A) (k : A -> result B) : result B :=
  match r with
  | Ok a => k a
  | Throw e => Throw e
  end.

Definition fmap {A B : Type} (f : A -> B) (r : result A) : result B :=
  bind r (fun a => Ok (f a)).

Declare Scope js_scope.
Delimit Scope js_scope with js.
Notation "x <- e ;; k" := (bind e (fun x => k))
  (at level 61, e at next level, right associativity) : js_scope.
Local Open Scope js_scope.

(** ** Data model (the interfaces at the top of the file) *)

Record ScriptRegion : Type := mkScriptRegion {
  file : string;
  text : string;
  startLineNumber : Z;
  startColumnNumber : Z;
  startOffset : Z;
  endLineNumber : Z;
  endColumnNumber : Z;
  endOffset : Z
}.

Inductive ScriptFileMarkerLevel : Type :=
| Information
| Warning
| Error.

Record MarkerCorrection : Type := mkMarkerCorrection {
  name : string;
  edits : list ScriptRegion
}.

Record ScriptFileMarker : Type := mkScriptFileMarker {
  message : string;
  level : ScriptFileMarkerLevel;
  scriptRegion : ScriptRegion;
  correction : MarkerCorrection
}.

(** [m.correction.edits[0]]: reading index 0 of an empty array gives
    [undefined]; every use in the code reads a property of it right away,
    which raises a [TypeError]. *)
Definition primaryEdit (m : ScriptFileMarker) : result ScriptRegion :=
  match edits (correction m) with
  | [] => Throw TypeError
  | edit :: _ => Ok edit
  end.

(** [m.correction.edits[0].startLineNumber] *)
Definition startLineOf (m : ScriptFileMarker) : result Z :=
  edit <- primaryEdit m ;; Ok (startLineNumber edit).

(** ** Sorting and filtering of a marker batch

    The code sorts the array it received and then copies one marker per
    line into [uniqueMarkers].  Both steps only look at the markers through
    [correction.edits[0].startLineNumber], so they are written once over an
    element type [A] with that projection, and used below at
    [ScriptFileMarker] with [startLineOf]. *)

Section Deduplicator.

Context {A : Type}.
Variable lineOf : A -> result Z.

(** The comparison function handed to [markers.sort]. *)
Definition compareFn (a b : A) : result Z :=
  leftOperand <- lineOf a ;;
  rightOperand <- lineOf b ;;
  Ok (if leftOperand <? rightOperand then 1
      else if leftOperand >? rightOperand then -1
      else 0).

(** [Array.prototype.sort] with a comparison function: a stable sort
    (ECMAScript 2019), here by insertion.  An element goes in front of the
    first element it does not have to follow.  A one-element array is
    never compared; with two or more elements each is compared at least
    once, so an exception of the comparison function leaves the sort. *)
Fixpoint insertSorted (x : A) (sorted : list A) : result (list A) :=
  match sorted with
  | [] => Ok [x]
  | y :: rest =>
      c <- compareFn x y ;;
      if c <=? 0 then Ok (x :: y :: rest)
      else (rest' <- insertSorted x rest ;; Ok (y :: rest'))
  end.

Fixpoint sort (markers : list A) : result (list A) :=
  match markers with
  | [] => Ok []
  | x :: rest => sorted <- sort rest ;; insertSorted x sorted
  end.

(** [uniqueMarkers[uniqueMarkers.length - 1]] *)
Definition lastOf (uniqueMarkers : list A) : result A :=
  match nth_error uniqueMarkers (length uniqueMarkers - 1) with
  | Some m => Ok m
  | None => Throw TypeError
  end.

(** The [for (let marker of markers.slice(1))] loop; [push] appends. *)
Fixpoint pushDistinct (uniqueMarkers rest : list A) : result (list A) :=
  match rest with
  | [] => Ok uniqueMarkers
  | marker :: rest' =>
      line <- lineOf marker ;;
      kept <- lastOf uniqueMarkers ;;
      keptLine <- lineOf kept ;;
      if negb (line =? keptLine)
      then pushDistinct (uniqueMarkers ++ [marker]) rest'
      else pushDistinct uniqueMarkers rest'
  end.

(** [if (markers.length > 0) { uniqueMarkers.push(markers[0]); ... }] *)
Definition filterUnique (markers : list A) : result (list A) :=
  match markers with
  | [] => Ok []
  | first :: rest => pushDistinct [first] rest
  end.

(** Sort, then filter: the pair [(markers, uniqueMarkers)] the two
    [then] callbacks share.  [markers] is the array after the in-place
    sort. *)
Definition deduplicate (batch : list A) : result (list A * list A) :=
  markers <- sort batch ;;
  uniqueMarkers <- filterUnique markers ;;
  Ok (markers, uniqueMarkers).

Definition keptOf (batch : list A) : result (list A) :=
  fmap snd (deduplicate batch).

End Deduplicator.

(** The instance the formatter runs: markers, compared by the start line
    of their first correction edit. *)
Definition deduplicateMarkers (batch : list ScriptFileMarker)
  : result (list ScriptFileMarker * list ScriptFileMarker) :=
  deduplicate startLineOf batch.

Definition keptMarkers (batch : list ScriptFileMarker)
  : result (list ScriptFileMarker) :=
  keptOf startLineOf batch.

(** ** Settings blob *)

(** Modelled from the spec: the settings object that [Settings.load]
    returns lives in [../settings], which is not part of the sources.  Only
    the three fields of [codeformatting] that [getSettings] reads are kept;
    the indentation size is an integer. *)
Record ICodeFormattingSettings : Type := mkCodeFormatting {
  openBraceOnSameLine : bool;
  newLineAfterOpenBrace : bool;
  indentationSize : Z
}.

Record ISettings : Type := mkSettings {
  codeformatting : ICodeFormattingSettings
}.

Definition LF : string := String (ascii_of_nat 10) EmptyString.

Fixpoint spaces (n : nat) : string :=
  match n with
  | O => EmptyString
  | S n' => String " " (spaces n')
  end.

(** A boolean inside a template literal. *)
Definition booleanToString (b : bool) : string :=
  if b then "true"%string else "false"%string.

(** An integer inside a template literal: decimal digits, with a minus
    sign when negative. *)
Definition numberToString (z : Z) : string :=
  DecimalString.NilZero.string_of_int (Z.to_int z).

Definition PSPlaceCloseBrace : string := "PSPlaceCloseBrace".
Definition PSPlaceOpenBrace : string := "PSPlaceOpenBrace".
Definition PSUseConsistentIndentation : string := "PSUseConsistentIndentation".

(** The order in which the rules will be executed starting from the first
    element. *)
Definition ruleOrder : list string :=
  [PSPlaceCloseBrace; PSPlaceOpenBrace; PSUseConsistentIndentation].

(** The [switch (rule)] of [getSettings]. *)
Definition ruleProperty (settings : ISettings) (rule : string) : string :=
  if String.eqb rule PSPlaceOpenBrace then
    (rule ++ " = @{" ++ LF
     ++ spaces 20 ++ "Enable = $true" ++ LF
     ++ spaces 20 ++ "OnSameLine = $"
     ++ booleanToString (openBraceOnSameLine (codeformatting settings)) ++ LF
     ++ spaces 20 ++ "NewLineAfter = $"
     ++ booleanToString (newLineAfterOpenBrace (codeformatting settings)) ++ LF
     ++ spaces 16 ++ "}")%string
  else if String.eqb rule PSUseConsistentIndentation then
    (rule ++ " = @{" ++ LF
     ++ spaces 20 ++ "Enable = $true" ++ LF
     ++ spaces 20 ++ "IndentationSize = "
     ++ numberToString (indentationSize (codeformatting settings)) ++ LF
     ++ spaces 16 ++ "}")%string
  else
    (rule ++ " = @{" ++ LF
     ++ spaces 20 ++ "Enable = $true" ++ LF
     ++ spaces 16 ++ "}")%string.

Definition getSettings (settings : ISettings) (rule : string) : string :=
  ("@{" ++ LF
   ++ spaces 4 ++ "IncludeRules = @('" ++ rule ++ "')" ++ LF
   ++ spaces 4 ++ "Rules = @{" ++ LF
   ++ spaces 16 ++ ruleProperty settings rule ++ LF
   ++ spaces 4 ++ "}" ++ LF
   ++ "}")%string.

(** [needle] occurs in [hay]. *)
Fixpoint occursIn (needle hay : string) : bool :=
  String.prefix needle hay
  || match hay with
     | EmptyString => false
     | String _ hay' => occursIn needle hay'
     end.

(** The blob has a line [key = value]. *)
Definition carries (key value blob : string) : bool :=
  occursIn (spaces 20 ++ key ++ " = " ++ value ++ LF)%string blob.

(** The blob mentions the setting [key] at all. *)
Definition mentions (key blob : string) : bool :=
  occursIn (key ++ " = ")%string blob.

(** ** The outside world: editor and analysis service *)

(** The arguments of [new vscode.Range(...)]. *)
Record Range : Type := mkRange {
  startLine : Z;
  startCharacter : Z;
  endLine : Z;
  endCharacter : Z
}.

(** The second argument of [TextEditor.edit]. *)
Record UndoOptions : Type := mkUndoOptions {
  undoStopAfter : bool;
  undoStopBefore : bool
}.

Inductive Event : Type :=
| SendRequest (filePath settings : string)
    (* languageClient.sendRequest(ScriptFileMarkersRequest.type, {...}) *)
| Replace (range : Range) (newText : string) (options : UndoOptions).
    (* Window.activeTextEditor.edit(b => b.replace(range, newText), options) *)

Inductive Response : Type :=
| Markers (markers : list ScriptFileMarker)
| Rejection (reason : string).

(** The analysis service answers a request from everything that happened
    so far (the log ends with the request itself): the edits already
    applied determine the text it analyses. *)
Definition Service : Type := list Event -> Response.

(** The field [languageClient] is declared without an initialiser, so it is
    [undefined] until [setLanguageClient] assigns it. *)
Inductive LanguageClientRef : Type :=
| Unset
| Null
| Client (sendRequest : Service).

Record PSDocumentFormattingEditProvider : Type := mkProvider {
  languageClient : LanguageClientRef;
  aggregateUndoStop : bool
}.

Definition newProvider (aggregateUndoStop : bool)
  : PSDocumentFormattingEditProvider :=
  mkProvider Unset aggregateUndoStop.

Definition setLanguageClient (this : PSDocumentFormattingEditProvider)
    (languageClient : LanguageClientRef) : PSDocumentFormattingEditProvider :=
  mkProvider languageClient (aggregateUndoStop this).

(** [DocumentFormatterFeature]: its constructor builds the provider with
    [aggregateUndoStop = true]. *)
Record DocumentFormatterFeature : Type := mkFeature {
  documentFormattingEditProvider : PSDocumentFormattingEditProvider
}.

Definition newFeature : DocumentFormatterFeature :=
  mkFeature (newProvider true).

Definition Feature_setLanguageClient (this : DocumentFormatterFeature)
    (languageclient : LanguageClientRef) : DocumentFormatterFeature :=
  mkFeature (setLanguageClient (documentFormattingEditProvider this) languageclient).

Record TextDocument : Type := mkTextDocument {
  fileName : string
}.

Record FormattingOptions : Type := mkFormattingOptions {
  tabSize : Z;
  insertSpaces : bool
}.

Record CancellationToken : Type := mkCancellationToken {
  isCancellationRequested : bool
}.

Record TextEdit : Type := mkTextEdit {
  editRange : Range;
  editNewText : string
}.

(** What a formatting provider may hand back. *)
Inductive EditsValue : Type :=
| Undefined
| EditArray (items : list TextEdit).

(** [TextEdit[0]]: the property ["0"] of the class [TextEdit], which does
    not exist. *)
Definition TextEdit_0 : EditsValue := Undefined.

(** The edits the host takes from a provider's value; [undefined] stands
    for no result. *)
Definition editsOf (v : EditsValue) : list TextEdit :=
  match v with
  | Undefined => []
  | EditArray items => items
  end.

Inductive Settlement : Type :=
| Fulfilled (v : EditsValue)
| Rejected (e : JsError)
| Pending.

(** How a call of [executeRulesInOrder] ends for its caller. *)
Inductive Completion : Type :=
| Returned (v : EditsValue)     (* a plain value, at once *)
| Thenable (s : Settlement)     (* a promise, and how it settles *)
| Raised (e : JsError).         (* an exception, at once *)

(** A promise resolved with what a [then] callback returned. *)
Definition adopt (c : Completion) : Completion :=
  match c with
  | Returned v => Thenable (Fulfilled v)
  | Thenable s => Thenable s
  | Raised e => Thenable (Rejected e)
  end.

(** ** Edit applicator *)

(** [new vscode.Range(startLine, startCharacter, endLine, endCharacter)]
    builds its two positions first, and a position refuses a negative line
    or character with an illegal argument error. *)
Definition newRange (startLine startCharacter endLine endCharacter : Z)
  : result Range :=
  if (startLine <? 0) || (startCharacter <? 0)
     || (endLine <? 0) || (endCharacter <? 0)
  then Throw IllegalArgument
  else Ok (mkRange startLine startCharacter endLine endCharacter).

(** The callback given to [edit]: build the range, then replace. *)
Definition replaceOf (edit : ScriptRegion) (options : UndoOptions)
  : result Event :=
  range <- newRange (startLineNumber edit - 1)
                    (startColumnNumber edit - 1)
                    (endLineNumber edit - 1)
                    (endColumnNumber edit - 1) ;;
  Ok (Replace range (text edit) options).

Definition undoOptionsAt (this : PSDocumentFormattingEditProvider)
    (markers : list ScriptFileMarker) (markerIndex ruleIndex : nat)
  : UndoOptions :=
  let undoStopAfter :=
    negb (aggregateUndoStop this)
    || (Nat.eqb ruleIndex (length ruleOrder - 1)
        && Nat.eqb markerIndex (length markers - 1)) in
  let undoStopBefore :=
    negb (aggregateUndoStop this)
    || (Nat.eqb ruleIndex 0 && Nat.eqb markerIndex 0) in
  mkUndoOptions undoStopAfter undoStopBefore.

(** [applyEdit]: the edits issued, in order, and whether the chain ended
    normally.  The editor's promise is taken to fulfil; the code ignores
    the boolean it carries.  The replacement callback reads the fields of
    [edit], so a marker without a first edit raises inside [edit(...)],
    before anything is replaced; so does a first edit whose lowered line
    or column is negative, when the range is built. *)
Equations? applyEdit (this : PSDocumentFormattingEditProvider)
    (markers : list ScriptFileMarker) (markerIndex ruleIndex : nat)
  : list Event * result unit by wf (length markers - markerIndex)%nat lt :=
  applyEdit this markers markerIndex ruleIndex
    with le_lt_dec (length markers) markerIndex := {
    | left _ => ([], Ok tt)
    | right _ with nth_error markers markerIndex := {
      | None => ([], Throw TypeError)
      | Some marker with primaryEdit marker := {
        | Throw e => ([], Throw e)
        | Ok edit
            with replaceOf edit
                   (undoOptionsAt this markers markerIndex ruleIndex) := {
          | Throw e => ([], Throw e)
          | Ok replacement =>
              let rest := applyEdit this markers (markerIndex + 1) ruleIndex in
              (replacement :: fst rest, snd rest) } } } }.
Proof. lia. Qed.

(** ** Rule scheduler *)

(** One pass of a rule, as the two [then] callbacks see it. *)
Record Pass : Type := mkPass {
  passIndex : nat;
  passMarkers : list ScriptFileMarker;
  passUnique : list ScriptFileMarker
}.

Record Run : Type := mkRun {
  log : list Event;
  passes : list Pass;
  completion : Completion
}.

Definition withPass (p : Pass) (r : Run) : Run :=
  mkRun (log r) (p :: passes r) (adopt (completion r)).

(** The second [then] callback: which index comes next. *)
Definition nextIndex (uniqueMarkers markers : list ScriptFileMarker)
    (index : nat) : nat :=
  if negb (Nat.eqb (length uniqueMarkers) (length markers))
  then index
  else (index + 1)%nat.

(** [executeRulesInOrder].  [history] is the log before the call; [fuel]
    bounds the number of requests that get an answer (a promise that is
    still waiting when it runs out is [Pending]). *)
Fixpoint executeRulesInOrder (fuel : nat)
    (this : PSDocumentFormattingEditProvider) (settings : ISettings)
    (document : TextDocument) (options : FormattingOptions)
    (index : nat) (history : list Event) : Run :=
  match languageClient this with
  | Null => mkRun history [] (Returned TextEdit_0)
  | Unset =>
      if (index <? length ruleOrder)%nat
      then mkRun history [] (Raised TypeError)
      else mkRun history [] (Returned TextEdit_0)
  | Client sendRequest =>
      match nth_error ruleOrder index with
      | None => mkRun history [] (Returned TextEdit_0)
      | Some rule =>
          let requested :=
            history ++ [SendRequest (fileName document)
                                    (getSettings settings rule)] in
          match fuel with
          | O => mkRun requested [] (Thenable Pending)
          | S fuel' =>
              match sendRequest requested with
              | Rejection reason =>
                  mkRun requested [] (Thenable (Rejected (RequestFailed reason)))
              | Markers batch =>
                  match deduplicateMarkers batch with
                  | Throw e => mkRun requested [] (Thenable (Rejected e))
                  | Ok (markers, uniqueMarkers) =>
                      let applied := applyEdit this uniqueMarkers 0 index in
                      let pass := mkPass index markers uniqueMarkers in
                      match snd applied with
                      | Throw e =>
                          mkRun (requested ++ fst applied) [pass]
                                (Thenable (Rejected e))
                      | Ok _ =>
                          withPass pass
                            (executeRulesInOrder fuel' this settings document
                               options
                               (nextIndex uniqueMarkers markers index)
                               (requested ++ fst applied))
                      end
                  end
              end
          end
      end
  end.

Definition provideDocumentFormattingEdits (fuel : nat)
    (this : PSDocumentFormattingEditProvider) (settings : ISettings)
    (document : TextDocument) (options : FormattingOptions)
    (token : CancellationToken) : Run :=
  executeRulesInOrder fuel this settings document options 0 [].

(** ** Test data *)

Definition line (n : Z) (t : string) : ScriptFileMarker :=
  mkScriptFileMarker "m" Warning
    (mkScriptRegion "f" "" n 1 0 n 2 1)
    (mkMarkerCorrection "c" [mkScriptRegion "f" t n 1 0 n 2 1]).


(** ** Reference functions used in the proofs

    When every marker of a batch has a first edit nothing can throw, and
    the sort and the filter are the plain list functions below, over a
    total line projection [k]. *)

Section Reference.

Context {A : Type}.
Variable k : A -> Z.

Fixpoint insertDesc (x : A) (sorted : list A) : list A :=
  match sorted with
  | [] => [x]
  | y :: rest =>
      if k y <=? k x then x :: y :: rest else y :: insertDesc x rest
  end.

Fixpoint sortDesc (l : list A) : list A :=
  match l with
  | [] => []
  | x :: rest => insertDesc x (sortDesc rest)
  end.

(** Drop the elements whose line is that of the element kept last. *)
Fixpoint dropSame (prev : Z) (l : list A) : list A :=
  match l with
  | [] => []
  | x :: rest =>
      if k x =? prev then dropSame prev rest else x :: dropSame (k x) rest
  end.

Definition uniqueDesc (l : list A) : list A :=
  match l with
  | [] => []
  | x :: rest => x :: dropSame (k x) rest
  end.

(** Lines fall from left to right, weakly and strictly. *)
Definition descending (l : list A) : Prop :=
  StronglySorted (fun a b => k b <= k a) l.

Definition strictlyDescending (l : list A) : Prop :=
  StronglySorted (fun a b => k b < k a) l.

End Reference.

Section Lines.

Context {A : Type}.
Variable lineOf : A -> result Z.

Definition lineOr0 (a : A) : Z :=
  match lineOf a with
  | Ok z => z
  | Throw _ => 0
  end.

Definition hasLine (a : A) : Prop := lineOf a = Ok (lineOr0 a).

(** The batches on which nothing throws. *)
Definition safeBatch (l : list A) : Prop :=
  (length l <= 1)%nat \/ Forall hasLine l.

(** [a] is on a line strictly below that of [b] in the document order
    the sort produces: both lines exist and [b]'s is smaller. *)
Definition lineAbove (a b : A) : Prop :=
  exists la lb, lineOf a = Ok la /\ lineOf b = Ok lb /\ lb < la.

End Lines.

(** Positions of a batch, for statements about which markers are kept. *)
Definition indexed {A : Type} (l : list A) : list (nat * A) :=
  combine (seq 0 (length l)) l.

(** The positions (in the batch as received) of the markers kept. *)
Definition keptPositions (batch : list ScriptFileMarker) : result (list nat) :=
  fmap (map fst)
       (keptOf (fun p : nat * ScriptFileMarker => startLineOf (snd p))
               (indexed batch)).

(** The replacements [applyEdit] issues for a kept list under rule
    [ruleIndex]. *)
Definition appliedReplacements (this : PSDocumentFormattingEditProvider)
    (kept : list ScriptFileMarker) (ruleIndex : nat) : list Event * result unit :=
  applyEdit this kept 0 ruleIndex.

(** The edits [applyEdit] issues, as a function of the first edits of the
    markers from [markerIndex] on. *)
Fixpoint replaceAll (optionsAt : nat -> UndoOptions) (markerIndex : nat)
    (firstEdits : list (result ScriptRegion)) : list Event * result unit :=
  match firstEdits with
  | [] => ([], Ok tt)
  | Throw e :: _ => ([], Throw e)
  | Ok edit :: rest =>
      match replaceOf edit (optionsAt markerIndex) with
      | Throw e => ([], Throw e)
      | Ok replacement =>
          let later := replaceAll optionsAt (S markerIndex) rest in
          (replacement :: fst later, snd later)
      end
  end.

(** The start line of a first edit that may be missing. *)
Definition lineOfEdit (e : result ScriptRegion) : result Z :=
  edit <- e ;; Ok (startLineNumber edit).

(** [ev] replaces the span of the first correction edit of [m], moved to
    0-based coordinates, by that edit's text. *)
Definition replacesFirstEdit (m : ScriptFileMarker) (ev : Event) : Prop :=
  exists edit others options,
    edits (correction m) = edit :: others
    /\ ev = Replace (mkRange (startLineNumber edit - 1)
                             (startColumnNumber edit - 1)
                             (endLineNumber edit - 1)
                             (endColumnNumber edit - 1))
                    (text edit) options.

(** ** Predicates on runs *)

(** The passes of a run visit the rules from [index] on: each pass is at
    the index of the pass before it when that pass kept fewer markers than
    it received, and at the next index otherwise. *)
Fixpoint visitsInOrder (index : nat) (ps : list Pass) : Prop :=
  match ps with
  | [] => True
  | p :: later =>
      passIndex p = index
      /\ visitsInOrder
           (if (length (passUnique p) <? length (passMarkers p))%nat
            then index else S index)
           later
  end.

(** The undo flags of the replacements of a log, in order:
    [(undoStopBefore, undoStopAfter)]. *)
Fixpoint undoFlags (events : list Event) : list (bool * bool) :=
  match events with
  | [] => []
  | SendRequest _ _ :: later => undoFlags later
  | Replace _ _ options :: later =>
      (undoStopBefore options, undoStopAfter options) :: undoFlags later
  end.

(** The requests of a log. *)
Fixpoint requestsOf (events : list Event) : list (string * string) :=
  match events with
  | [] => []
  | SendRequest filePath settings :: later =>
      (filePath, settings) :: requestsOf later
  | Replace _ _ _ :: later => requestsOf later
  end.

(** The edits that reach the caller of the formatting operation. *)
Definition deliveredEdits (c : Completion) : list TextEdit :=
  match c with
  | Returned v => editsOf v
  | Thenable (Fulfilled v) => editsOf v
  | Thenable _ => []
  | Raised _ => []
  end.

(** The caller has its answer when the call returns. *)
Definition synchronous (c : Completion) : bool :=
  match c with
  | Returned _ => true
  | Thenable _ => false
  | Raised _ => true
  end.

(** The call hands an empty list of edits back at once. *)
Definition returnsEmptyListAtOnce (r : Run) : Prop :=
  exists v, completion r = Returned v /\ editsOf v = [].

(** The rules that place braces; in the rule order they come before the
    indentation rule. *)
Definition bracePlacementRule (rule : string) : bool :=
  String.eqb rule PSPlaceCloseBrace || String.eqb rule PSPlaceOpenBrace.

(** The blob of a brace-placement rule has the two brace flags. *)
Definition braceRulesCarryFlags (settings : ISettings) (rule : string) : Prop :=
  bracePlacementRule rule = true ->
  mentions "OnSameLine" (getSettings settings rule) = true
  /\ mentions "NewLineAfter" (getSettings settings rule) = true.

(** A character of a decimal numeral. *)
Definition numeralChar (c : ascii) : bool :=
  let n := nat_of_ascii c in
  ((48 <=? n) && (n <=? 57) || (n =? 45))%nat.

Fixpoint numeral (s : string) : bool :=
  match s with
  | EmptyString => true
  | String c s' => numeralChar c && numeral s'
  end.

(** ** More test data *)

Definition settings0 : ISettings := mkSettings (mkCodeFormatting true false 4).
Definition document0 : TextDocument := mkTextDocument "script.ps1".
Definition options0 : FormattingOptions := mkFormattingOptions 4 true.
Definition token0 : CancellationToken := mkCancellationToken false.

(** A marker on line [n] with another message, level and region, and with
    a second correction edit. *)
Definition loud (n : Z) (t : string) : ScriptFileMarker :=
  mkScriptFileMarker "another message" Error
    (mkScriptRegion "g" "region" 1 1 0 1 1 0)
    (mkMarkerCorrection "d"
       [mkScriptRegion "f" t n 1 0 n 2 1;
        mkScriptRegion "f" "second" (n + 7) 1 0 (n + 7) 2 1]).

(** A service that never finds anything. *)
Definition quietService : Service := fun _ => Markers [].

(** A service that reports two violations on line 10 for the first
    request, the remaining one for the second request, and nothing after
    that. *)
Definition collidingService : Service :=
  fun history =>
    match length history with
    | 1%nat => Markers [line 10 "a"; line 10 "b"]
    | 3%nat => Markers [line 10 "b"]
    | _ => Markers []
    end.

(** A service that reports one violation per rule (once). *)
Definition oneEachService : Service :=
  fun history =>
    match length history with
    | 1%nat => Markers [line 3 "a"]
    | 3%nat => Markers [line 2 "b"]
    | 5%nat => Markers [line 1 "c"]
    | _ => Markers []
    end.

Definition connected (sendRequest : Service) : PSDocumentFormattingEditProvider :=
  documentFormattingEditProvider
    (Feature_setLanguageClient newFeature (Client sendRequest)).

(** ** Predicates for the further properties *)

(** The four line and column numbers of the region are 1-based. *)
Definition oneBased (edit : ScriptRegion) : Prop :=
  1 <= startLineNumber edit /\ 1 <= startColumnNumber edit
  /\ 1 <= endLineNumber edit /\ 1 <= endColumnNumber edit.

(** One of the four line and column numbers of the region is below 1. *)
Definition belowOne (edit : ScriptRegion) : Prop :=
  startLineNumber edit < 1 \/ startColumnNumber edit < 1
  \/ endLineNumber edit < 1 \/ endColumnNumber edit < 1.

(** The marker has a first correction edit, with 1-based numbers. *)
Definition hasOneBasedFirstEdit (m : ScriptFileMarker) : Prop :=
  exists edit others, edits (correction m) = edit :: others /\ oneBased edit.

(** The marker has a first correction edit. *)
Definition hasFirstEdit (m : ScriptFileMarker) : Prop :=
  edits (correction m) <> [].

(** Both lines exist, and the line of [b] is not greater than that of
    [a]. *)
Definition lineAtLeast {A : Type} (lineOf : A -> result Z) (a b : A) : Prop :=
  exists la lb, lineOf a = Ok la /\ lineOf b = Ok lb /\ lb <= la.

(** The marker's first correction edit starts on line [l]. *)
Definition onLine (l : Z) (m : ScriptFileMarker) : bool :=
  match startLineOf m with
  | Ok z => z =? l
  | Throw _ => false
  end.

(** The 0-based start line of a replacement. *)
Definition replacedLine (ev : Event) : option Z :=
  match ev with
  | Replace range _ _ => Some (startLine range)
  | SendRequest _ _ => None
  end.

(** [later] replaces on a line strictly above (smaller than) the line
    [earlier] replaces on. *)
Definition replacesAbove (earlier later : Event) : Prop :=
  exists le ll,
    replacedLine earlier = Some le /\ replacedLine later = Some ll /\ ll < le.

(** Every answer of the service is a batch whose markers have a first
    correction edit with 1-based numbers and start on pairwise different
    lines. *)
Definition collisionFree (sendRequest : Service) : Prop :=
  forall history, exists batch,
    sendRequest history = Markers batch
    /\ Forall hasOneBasedFirstEdit batch
    /\ NoDup (map startLineOf batch).

(** Every answer of the service is a batch whose markers have a first
    correction edit with 1-based numbers, two of them on the same line. *)
Definition alwaysColliding (sendRequest : Service) : Prop :=
  forall history, exists batch,
    sendRequest history = Markers batch
    /\ Forall hasOneBasedFirstEdit batch
    /\ ~ NoDup (map startLineOf batch).

(** A request of the document's run: it names the document's file and
    carries the blob of a rule of the rule order. *)
Definition requestFor (settings : ISettings) (document : TextDocument)
    (ev : Event) : Prop :=
  match ev with
  | SendRequest filePath blob =>
      filePath = fileName document
      /\ exists rule, In rule ruleOrder /\ blob = getSettings settings rule
  | Replace _ _ _ => True
  end.

(** Every replacement of the events [rest], which follow the events
    [seen], is the replacement of the first correction edit of a marker of
    the batch the service gave in answer to the latest request before it;
    [current] is the batch of the latest request in [seen]. *)
Fixpoint editsJustified (sendRequest : Service) (seen : list Event)
    (current : list ScriptFileMarker) (rest : list Event) : Prop :=
  match rest with
  | [] => True
  | SendRequest filePath blob :: later =>
      editsJustified sendRequest (seen ++ [SendRequest filePath blob])
        (match sendRequest (seen ++ [SendRequest filePath blob]) with
         | Markers batch => batch
         | Rejection _ => []
         end)
        later
  | Replace range newText options :: later =>
      (exists m, In m current
                 /\ replacesFirstEdit m (Replace range newText options))
      /\ editsJustified sendRequest (seen ++ [Replace range newText options])
           current later
  end.

(** The undo flags [(undoStopBefore, undoStopAfter)] of edit number [i] of
    a pass of [n] edits for rule [ruleIndex]. *)
Definition flagsAt (aggregate : bool) (ruleIndex n i : nat) : bool * bool :=
  (negb aggregate || (Nat.eqb ruleIndex 0 && Nat.eqb i 0),
   negb aggregate || (Nat.eqb ruleIndex 2 && Nat.eqb i (n - 1))).

(** The settings the case of [rule] in [getSettings] reads are the same in
    [s1] and [s2]. *)
Definition sameForRule (rule : string) (s1 s2 : ISettings) : Prop :=
  if String.eqb rule PSPlaceOpenBrace then
    openBraceOnSameLine (codeformatting s1)
    = openBraceOnSameLine (codeformatting s2)
    /\ newLineAfterOpenBrace (codeformatting s1)
       = newLineAfterOpenBrace (codeformatting s2)
  else if String.eqb rule PSUseConsistentIndentation then
    indentationSize (codeformatting s1) = indentationSize (codeformatting s2)
  else True.

(** A service that always reports the same two violations on line 10. *)
Definition stuckService : Service :=
  fun _ => Markers [line 10 "a"; line 10 "b"].


(** A marker that has no correction edit. *)
Definition bare (n : Z) : ScriptFileMarker :=
  mkScriptFileMarker "m" Warning
    (mkScriptRegion "f" "" n 1 0 n 2 1)
    (mkMarkerCorrection "c" []).

(** * Theorems *)

(** ** The result monad *)

Lemma bind_ok_inv {A B : Type} (r : result A) (f : A -> result B) (b : B) :
  bind r f = Ok b -> exists a, r = Ok a /\ f a = Ok b.
Proof.
  destruct r as [a|e]; simpl; intros H.
  - exists a. split; [reflexivity | exact H].
  - discriminate H.
Qed.

Ltac one_based_markers :=
  repeat (constructor;
          [do 2 eexists; split; [reflexivity | unfold oneBased; simpl; lia] |]);
  constructor.

Ltac inv_bind H :=
  let a := fresh "v" in
  let Ha := fresh "E" in
  apply bind_ok_inv in H; destruct H as [a [Ha H]].

(** ** Sorting and filtering without exceptions *)

Section ReferenceFacts.

Context {A : Type}.
Variable k : A -> Z.

Lemma insertDesc_perm x l : Permutation (insertDesc k x l) (x :: l).
Proof.
  induction l as [|y rest IH]; simpl.
  - apply Permutation_refl.
  - destruct (k y <=? k x).
    + apply Permutation_refl.
    + eapply perm_trans; [apply perm_skip, IH | apply perm_swap].
Qed.

Lemma sortDesc_perm l : Permutation (sortDesc k l) l.
Proof.
  induction l as [|x rest IH]; simpl.
  - apply perm_nil.
  - eapply perm_trans; [apply insertDesc_perm | apply perm_skip, IH].
Qed.

Lemma sortDesc_length l : length (sortDesc k l) = length l.
Proof. apply Permutation_length, sortDesc_perm. Qed.

Lemma insertDesc_descending x l :
  descending k l -> descending k (insertDesc k x l).
Proof.
  unfold descending.
  induction l as [|y rest IH]; simpl; intros Hs.
  - constructor; constructor.
  - apply StronglySorted_inv in Hs. destruct Hs as [Hrest Hy].
    destruct (k y <=? k x) eqn:Hc.
    + apply Z.leb_le in Hc.
      constructor.
      * constructor; assumption.
      * constructor; [exact Hc |].
        eapply Forall_impl; [| exact Hy]. simpl. intros a Ha. lia.
    + apply Z.leb_gt in Hc.
      constructor.
      * apply IH, Hrest.
      * eapply Permutation_Forall.
        -- apply Permutation_sym, insertDesc_perm.
        -- constructor; [lia | exact Hy].
Qed.

Lemma sortDesc_descending l : descending k (sortDesc k l).
Proof.
  induction l as [|x rest IH]; simpl.
  - constructor.
  - apply insertDesc_descending, IH.
Qed.

Lemma dropSame_length prev l : (length (dropSame k prev l) <= length l)%nat.
Proof.
  revert prev. induction l as [|x rest IH]; simpl; intros prev.
  - lia.
  - destruct (k x =? prev); simpl.
    + specialize (IH prev). lia.
    + specialize (IH (k x)). lia.
Qed.

Lemma dropSame_incl prev l : incl (dropSame k prev l) l.
Proof.
  revert prev. induction l as [|x rest IH]; simpl; intros prev.
  - apply incl_refl.
  - destruct (k x =? prev).
    + apply incl_tl, IH.
    + apply incl_cons; [left; reflexivity | apply incl_tl, IH].
Qed.

Lemma dropSame_strict prev l :
  descending k l ->
  Forall (fun a => k a <= prev) l ->
  strictlyDescending k (dropSame k prev l)
  /\ Forall (fun a => k a < prev) (dropSame k prev l).
Proof.
  unfold descending, strictlyDescending.
  revert prev. induction l as [|x rest IH]; simpl; intros prev Hs Hb.
  - split; constructor.
  - apply StronglySorted_inv in Hs. destruct Hs as [Hrest Hx].
    inversion Hb as [|? ? Hxp Hbrest]; subst.
    destruct (k x =? prev) eqn:Hc.
    + apply IH; assumption.
    + apply Z.eqb_neq in Hc.
      destruct (IH (k x) Hrest Hx) as [Hs' Hb'].
      split.
      * constructor; assumption.
      * constructor; [lia |].
        eapply Forall_impl; [| exact Hb']. simpl. intros a Ha. lia.
Qed.

Lemma uniqueDesc_strict l :
  descending k l -> strictlyDescending k (uniqueDesc k l).
Proof.
  destruct l as [|x rest]; simpl; intros Hs.
  - constructor.
  - apply StronglySorted_inv in Hs. destruct Hs as [Hrest Hx].
    destruct (dropSame_strict Hrest Hx) as [Hs' Hb'].
    constructor; assumption.
Qed.

Lemma uniqueDesc_length l : (length (uniqueDesc k l) <= length l)%nat.
Proof.
  destruct l as [|x rest]; simpl.
  - lia.
  - pose proof (dropSame_length (k x) rest). lia.
Qed.

Lemma uniqueDesc_incl l : incl (uniqueDesc k l) l.
Proof.
  destruct l as [|x rest]; simpl.
  - apply incl_refl.
  - apply incl_cons; [left; reflexivity | apply incl_tl, dropSame_incl].
Qed.

Lemma strictlyDescending_NoDup l :
  strictlyDescending k l -> NoDup (map k l).
Proof.
  unfold strictlyDescending.
  induction 1 as [|x rest Hs IH Hx]; simpl.
  - constructor.
  - constructor; [| exact IH].
    intros Hin. apply in_map_iff in Hin. destruct Hin as [y [Hy Hiny]].
    rewrite Forall_forall in Hx. specialize (Hx y Hiny). lia.
Qed.

(** A strictly descending list is a fixed point of both steps. *)
Lemma sortDesc_fixed l : strictlyDescending k l -> sortDesc k l = l.
Proof.
  unfold strictlyDescending.
  induction 1 as [|x rest Hs IH Hx]; simpl.
  - reflexivity.
  - rewrite IH. destruct rest as [|y rest']; simpl.
    + reflexivity.
    + inversion Hx as [|? ? Hy _]; subst.
      destruct (k y <=? k x) eqn:Hc; [reflexivity |].
      apply Z.leb_gt in Hc. lia.
Qed.

Lemma dropSame_fixed prev l :
  strictlyDescending k l ->
  Forall (fun a => k a < prev) l ->
  dropSame k prev l = l.
Proof.
  unfold strictlyDescending.
  intros Hs. revert prev.
  induction Hs as [|x rest Hs IH Hx]; simpl; intros prev Hb.
  - reflexivity.
  - inversion Hb as [|? ? Hxp Hbrest]; subst.
    destruct (k x =? prev) eqn:Hc.
    + apply Z.eqb_eq in Hc. lia.
    + rewrite (IH (k x) Hx). reflexivity.
Qed.

Lemma uniqueDesc_fixed l : strictlyDescending k l -> uniqueDesc k l = l.
Proof.
  unfold strictlyDescending.
  destruct l as [|x rest]; simpl; intros Hs.
  - reflexivity.
  - apply StronglySorted_inv in Hs. destruct Hs as [Hrest Hx].
    rewrite (dropSame_fixed Hrest Hx). reflexivity.
Qed.

End ReferenceFacts.

(** ** The code's sort and filter against the reference functions *)

Section DeduplicatorFacts.

Context {A : Type}.
Variable lineOf : A -> result Z.

Let k := lineOr0 lineOf.
Let lined := hasLine lineOf.

Lemma hasLine_intro a z : lineOf a = Ok z -> lined a.
Proof.
  unfold lined, hasLine, k, lineOr0. intros H. rewrite H. reflexivity.
Qed.

Lemma compareFn_hasLine x y :
  lined x -> lined y ->
  exists c, compareFn lineOf x y = Ok c /\ (c <=? 0) = (k y <=? k x).
Proof.
  unfold lined, hasLine, compareFn. fold k. intros Hx Hy.
  rewrite Hx, Hy. simpl.
  eexists. split; [reflexivity |].
  destruct (k x <? k y) eqn:H1.
  - apply Z.ltb_lt in H1. symmetry. apply Z.leb_gt. exact H1.
  - apply Z.ltb_ge in H1.
    replace (k y <=? k x) with true by (symmetry; apply Z.leb_le; exact H1).
    destruct (k x >? k y); reflexivity.
Qed.

Lemma compareFn_ok_inv x y c :
  compareFn lineOf x y = Ok c -> lined x /\ lined y.
Proof.
  unfold compareFn. intros H.
  inv_bind H. inv_bind H.
  split; eapply hasLine_intro; eassumption.
Qed.

Lemma insertSorted_reference x l :
  lined x -> Forall lined l ->
  insertSorted lineOf x l = Ok (insertDesc k x l).
Proof.
  intros Hx. induction l as [|y rest IH]; simpl; intros Hl.
  - reflexivity.
  - inversion Hl as [|? ? Hy Hrest]; subst.
    destruct (compareFn_hasLine Hx Hy) as [c [Hc Hle]].
    rewrite Hc. simpl. rewrite Hle.
    destruct (k y <=? k x); [reflexivity |].
    rewrite (IH Hrest). reflexivity.
Qed.

Lemma sort_reference l :
  Forall lined l -> sort lineOf l = Ok (sortDesc k l).
Proof.
  induction l as [|x rest IH]; simpl; intros Hl.
  - reflexivity.
  - inversion Hl as [|? ? Hx Hrest]; subst.
    rewrite (IH Hrest). simpl.
    apply insertSorted_reference; [exact Hx |].
    eapply Permutation_Forall; [apply Permutation_sym, sortDesc_perm | exact Hrest].
Qed.

Lemma insertSorted_length x l s :
  insertSorted lineOf x l = Ok s -> length s = S (length l).
Proof.
  revert s. induction l as [|y rest IH]; simpl; intros s H.
  - injection H as <-. reflexivity.
  - inv_bind H. destruct (v <=? 0).
    + injection H as <-. reflexivity.
    + inv_bind H. injection H as <-. simpl. rewrite (IH _ E0). reflexivity.
Qed.

Lemma sort_length l s : sort lineOf l = Ok s -> length s = length l.
Proof.
  revert s. induction l as [|x rest IH]; simpl; intros s H.
  - injection H as <-. reflexivity.
  - inv_bind H. rewrite (insertSorted_length _ _ H), (IH _ E). reflexivity.
Qed.

(** A one-element array is returned untouched, whatever it holds. *)
Lemma sort_singleton a : sort lineOf [a] = Ok [a].
Proof. reflexivity. Qed.

(** If the sort of two or more elements returns, each of them was
    compared, so each has a line. *)
Lemma sort_ok_hasLine l s :
  sort lineOf l = Ok s -> (2 <= length l)%nat -> Forall lined l.
Proof.
  revert s. induction l as [|x rest IH]; simpl; intros s H Hlen.
  - lia.
  - inv_bind H.
    pose proof (sort_length _ E) as Hlv.
    destruct v as [|y v'].
    + simpl in Hlv. lia.
    + simpl in H. inv_bind H.
      destruct (compareFn_ok_inv _ _ E0) as [Hx Hy].
      constructor; [exact Hx |].
      destruct rest as [|r1 [|r2 rest']].
      * simpl in Hlv. discriminate Hlv.
      * simpl in E. injection E as <- <-. constructor; [exact Hy | constructor].
      * eapply IH; [exact E | simpl; lia].
Qed.

Lemma lastOf_snoc (acc : list A) (a : A) : lastOf (acc ++ [a]) = Ok a.
Proof.
  unfold lastOf. rewrite length_app. simpl.
  replace (length acc + 1 - 1)%nat with (length acc) by lia.
  rewrite nth_error_app2 by lia. rewrite Nat.sub_diag. reflexivity.
Qed.

Lemma pushDistinct_reference acc a rest :
  lined a -> Forall lined rest ->
  pushDistinct lineOf (acc ++ [a]) rest
  = Ok (acc ++ a :: dropSame k (k a) rest).
Proof.
  intros Ha Hrest. revert acc a Ha.
  induction Hrest as [|x rest Hx Hrest IH]; simpl; intros acc a Ha.
  - reflexivity.
  - rewrite Hx. simpl. rewrite lastOf_snoc. simpl. rewrite Ha. simpl.
    change (lineOr0 lineOf) with k.
    destruct (k x =? k a); simpl.
    + apply IH, Ha.
    + rewrite (IH (acc ++ [a]) x Hx). rewrite <- app_assoc. reflexivity.
Qed.

Lemma filterUnique_reference l :
  Forall lined l -> filterUnique lineOf l = Ok (uniqueDesc k l).
Proof.
  destruct l as [|x rest]; simpl; intros Hl.
  - reflexivity.
  - inversion Hl as [|? ? Hx Hrest]; subst.
    apply (pushDistinct_reference [] Hx Hrest).
Qed.

Lemma deduplicate_reference l :
  safeBatch lineOf l ->
  deduplicate lineOf l = Ok (sortDesc k l, uniqueDesc k (sortDesc k l)).
Proof.
  intros [Hlen | Hl].
  - destruct l as [|a [|b rest]]; simpl in Hlen; try lia; reflexivity.
  - unfold deduplicate. rewrite (sort_reference Hl). simpl.
    rewrite filterUnique_reference; [reflexivity |].
    eapply Permutation_Forall; [apply Permutation_sym, sortDesc_perm | exact Hl].
Qed.

Lemma deduplicate_ok_inv l markers uniqueMarkers :
  deduplicate lineOf l = Ok (markers, uniqueMarkers) ->
  safeBatch lineOf l
  /\ markers = sortDesc k l
  /\ uniqueMarkers = uniqueDesc k (sortDesc k l).
Proof.
  intros H.
  assert (Hsafe : safeBatch lineOf l).
  { unfold deduplicate in H. inv_bind H.
    destruct (le_lt_dec (length l) 1) as [Hle | Hgt].
    - left. exact Hle.
    - right. eapply sort_ok_hasLine; [exact E | lia]. }
  split; [exact Hsafe |].
  rewrite (deduplicate_reference Hsafe) in H.
  injection H as <- <-. split; reflexivity.
Qed.

Lemma keptOf_ok_inv l kept :
  keptOf lineOf l = Ok kept ->
  safeBatch lineOf l /\ kept = uniqueDesc k (sortDesc k l).
Proof.
  unfold keptOf, fmap. intros H. inv_bind H.
  destruct v as [markers uniqueMarkers].
  injection H as <-.
  destruct (deduplicate_ok_inv _ E) as [Hs [_ Hu]].
  split; assumption.
Qed.

Lemma keptOf_reference l :
  safeBatch lineOf l -> keptOf lineOf l = Ok (uniqueDesc k (sortDesc k l)).
Proof.
  intros Hs. unfold keptOf, fmap. rewrite (deduplicate_reference Hs). reflexivity.
Qed.

Lemma kept_strictlyDescending l :
  strictlyDescending k (uniqueDesc k (sortDesc k l)).
Proof. apply uniqueDesc_strict, sortDesc_descending. Qed.

Lemma kept_length l :
  (length (uniqueDesc k (sortDesc k l)) <= length l)%nat.
Proof.
  pose proof (uniqueDesc_length k (sortDesc k l)).
  rewrite sortDesc_length in *. assumption.
Qed.

Lemma kept_hasLine l :
  Forall lined l -> Forall lined (uniqueDesc k (sortDesc k l)).
Proof.
  intros Hl. rewrite Forall_forall in *. intros a Ha.
  apply Hl. eapply Permutation_in; [apply sortDesc_perm |].
  eapply uniqueDesc_incl. exact Ha.
Qed.

Lemma kept_safe l :
  safeBatch lineOf l -> safeBatch lineOf (uniqueDesc k (sortDesc k l)).
Proof.
  intros [Hlen | Hl].
  - left. pose proof (kept_length l). lia.
  - right. apply kept_hasLine, Hl.
Qed.

End DeduplicatorFacts.

(** ** The three properties of the kept list, for any element type *)

Section KeptFacts.

Context {A : Type}.
Variable lineOf : A -> result Z.

Lemma map_lineOf_hasLine (l : list A) :
  Forall (hasLine lineOf) l ->
  map lineOf l = map Ok (map (lineOr0 lineOf) l).
Proof.
  induction 1 as [|x rest Hx Hrest IH]; simpl.
  - reflexivity.
  - rewrite Hx at 1. rewrite IH. reflexivity.
Qed.

Lemma NoDup_map_Ok (zs : list Z) : NoDup zs -> NoDup (map (@Ok Z) zs).
Proof.
  induction 1 as [|z rest Hz Hnd IH]; simpl.
  - constructor.
  - constructor; [| exact IH].
    intros Hin. apply in_map_iff in Hin.
    destruct Hin as [z' [Heq Hin]]. injection Heq as ->. contradiction.
Qed.

Lemma NoDup_short {X : Type} (l : list X) : (length l <= 1)%nat -> NoDup l.
Proof.
  destruct l as [|a [|b rest]]; simpl; intros H.
  - constructor.
  - constructor; [intros [] | constructor].
  - lia.
Qed.

Lemma keptOf_NoDup l kept :
  keptOf lineOf l = Ok kept -> NoDup (map lineOf kept).
Proof.
  intros H. destruct (@keptOf_ok_inv _ _ _ _ H) as [Hsafe ->].
  destruct (kept_safe Hsafe) as [Hlen | Hl].
  - apply NoDup_short. rewrite length_map. exact Hlen.
  - rewrite (map_lineOf_hasLine Hl).
    apply NoDup_map_Ok, strictlyDescending_NoDup, kept_strictlyDescending.
Qed.

Lemma keptOf_length l kept :
  keptOf lineOf l = Ok kept -> (length kept <= length l)%nat.
Proof.
  intros H. destruct (@keptOf_ok_inv _ _ _ _ H) as [_ ->]. apply kept_length.
Qed.

Lemma strict_lineAbove l :
  Forall (hasLine lineOf) l ->
  strictlyDescending (lineOr0 lineOf) l ->
  StronglySorted (lineAbove lineOf) l.
Proof.
  unfold strictlyDescending.
  intros Hl Hs. induction Hs as [|x rest Hs IH Hx].
  - constructor.
  - inversion Hl as [|? ? Hlx Hlrest]; subst.
    constructor; [apply IH, Hlrest |].
    rewrite Forall_forall in *. intros y Hy.
    exists (lineOr0 lineOf x), (lineOr0 lineOf y).
    split; [exact Hlx |]. split; [apply Hlrest, Hy | apply Hx, Hy].
Qed.

Lemma keptOf_sorted l kept :
  keptOf lineOf l = Ok kept -> StronglySorted (lineAbove lineOf) kept.
Proof.
  intros H. destruct (@keptOf_ok_inv _ _ _ _ H) as [Hsafe ->].
  destruct (kept_safe Hsafe) as [Hlen | Hl].
  - destruct (uniqueDesc _ _) as [|a [|b rest]]; simpl in Hlen.
    + constructor.
    + constructor; constructor.
    + lia.
  - apply strict_lineAbove; [exact Hl | apply kept_strictlyDescending].
Qed.

Lemma deduplicate_kept_fixed l kept :
  keptOf lineOf l = Ok kept -> deduplicate lineOf kept = Ok (kept, kept).
Proof.
  intros H. destruct (@keptOf_ok_inv _ _ _ _ H) as [Hsafe ->].
  rewrite (deduplicate_reference (kept_safe Hsafe)).
  pose proof (kept_strictlyDescending lineOf l) as Hs.
  rewrite (sortDesc_fixed Hs), (uniqueDesc_fixed Hs). reflexivity.
Qed.

End KeptFacts.

Lemma firstEdit_hasLine (m : ScriptFileMarker) :
  edits (correction m) <> [] -> hasLine startLineOf m.
Proof.
  unfold hasLine, lineOr0, startLineOf, primaryEdit.
  destruct (edits (correction m)) as [|e rest]; [congruence | reflexivity].
Qed.

Lemma firstEdits_safe (batch : list ScriptFileMarker) :
  Forall (fun m => edits (correction m) <> []) batch ->
  safeBatch startLineOf batch.
Proof.
  intros H. right. eapply Forall_impl; [| exact H].
  intros m. apply firstEdit_hasLine.
Qed.

(** Scenario A of the specification: markers on lines 10, 10 and 5; the
    first marker of line 10 and the marker of line 5 are kept. *)
Example scenarioA :
  keptMarkers [line 10 "a"; line 10 "b"; line 5 "c"]
  = Ok [line 10 "a"; line 5 "c"].
Proof. reflexivity. Qed.

(** A batch of one marker is kept as it is, even when the marker has no
    correction edit: nothing is compared. *)
Example lone_marker_without_edit :
  keptMarkers [mkScriptFileMarker "m" Warning
                 (mkScriptRegion "f" "" 1 1 0 1 2 1)
                 (mkMarkerCorrection "c" [])]
  = Ok [mkScriptFileMarker "m" Warning
          (mkScriptRegion "f" "" 1 1 0 1 2 1)
          (mkMarkerCorrection "c" [])].
Proof. reflexivity. Qed.

(** In a batch of two, a marker without correction edits makes the
    comparison function throw. *)
Example marker_without_edit_throws :
  keptMarkers [line 3 "a";
               mkScriptFileMarker "m" Warning
                 (mkScriptRegion "f" "" 1 1 0 1 2 1)
                 (mkMarkerCorrection "c" [])]
  = Throw TypeError.
Proof. reflexivity. Qed.

(** C1. For every batch the kept subset has at most one marker per start
    line of the first correction edit, and is no longer than the batch.
    The de-duplication returns a kept subset whenever every marker of the
    batch carries a first correction edit. *)
Theorem kept_one_per_line (batch : list ScriptFileMarker) :
  (Forall (fun m => edits (correction m) <> []) batch ->
   exists kept, keptMarkers batch = Ok kept)
  /\ (forall kept, keptMarkers batch = Ok kept ->
        NoDup (map startLineOf kept)
        /\ (length kept <= length batch)%nat).
Proof.
  split.
  - intros H. eexists. apply keptOf_reference, firstEdits_safe, H.
  - intros kept H. split.
    + eapply keptOf_NoDup, H.
    + eapply keptOf_length, H.
Qed.

Lemma kept_one_per_line_witness :
  (exists kept, keptMarkers [line 10 "a"; line 10 "b"; line 5 "c"] = Ok kept)
  /\ NoDup (map startLineOf [line 10 "a"; line 5 "c"])
  /\ (2 <= 3)%nat.
Proof.
  destruct (kept_one_per_line [line 10 "a"; line 10 "b"; line 5 "c"])
    as [Htotal Hkept].
  split.
  - apply Htotal. repeat constructor; discriminate.
  - apply (Hkept [line 10 "a"; line 5 "c"]). reflexivity.
Defined.

(** C6. For every batch the kept subset is sorted strictly descending by
    the start line of each marker's first correction edit: every kept
    marker has a line strictly greater than the lines of all markers kept
    after it. *)
Theorem kept_strictly_descending (batch kept : list ScriptFileMarker) :
  keptMarkers batch = Ok kept ->
  StronglySorted (lineAbove startLineOf) kept.
Proof. apply keptOf_sorted. Qed.

Lemma kept_strictly_descending_witness :
  StronglySorted (lineAbove startLineOf) [line 10 "a"; line 5 "c"].
Proof.
  apply (@kept_strictly_descending [line 10 "a"; line 10 "b"; line 5 "c"]).
  reflexivity.
Defined.

(** C7. The de-duplication is idempotent: sorting and filtering a kept
    subset again leaves the array as it is and keeps all of it (the same
    markers in the same order, so the two lengths agree and no collision
    is reported). *)
Theorem deduplicate_idempotent (batch kept : list ScriptFileMarker) :
  keptMarkers batch = Ok kept ->
  deduplicateMarkers kept = Ok (kept, kept).
Proof. apply deduplicate_kept_fixed. Qed.

Lemma deduplicate_idempotent_witness :
  deduplicateMarkers [line 10 "a"; line 5 "c"]
  = Ok ([line 10 "a"; line 5 "c"], [line 10 "a"; line 5 "c"]).
Proof.
  apply (@deduplicate_idempotent [line 10 "a"; line 10 "b"; line 5 "c"]).
  reflexivity.
Defined.

(** ** The edit applicator *)

Lemma applyEdit_done this markers markerIndex ruleIndex :
  (length markers <= markerIndex)%nat ->
  applyEdit this markers markerIndex ruleIndex = ([], Ok tt).
Proof.
  intros H. rewrite (applyEdit_equation_1 this markers markerIndex ruleIndex).
  destruct (le_lt_dec (length markers) markerIndex); simpl.
  - reflexivity.
  - lia.
Qed.

Lemma applyEdit_step this markers markerIndex ruleIndex marker :
  nth_error markers markerIndex = Some marker ->
  applyEdit this markers markerIndex ruleIndex =
  match primaryEdit marker with
  | Throw e => ([], Throw e)
  | Ok edit =>
      match replaceOf edit (undoOptionsAt this markers markerIndex ruleIndex)
      with
      | Throw e => ([], Throw e)
      | Ok replacement =>
          (replacement
             :: fst (applyEdit this markers (markerIndex + 1) ruleIndex),
           snd (applyEdit this markers (markerIndex + 1) ruleIndex))
      end
  end.
Proof.
  intros H. rewrite (applyEdit_equation_1 this markers markerIndex ruleIndex).
  destruct (le_lt_dec (length markers) markerIndex) as [Hle | Hlt]; simpl.
  - apply nth_error_None in Hle. congruence.
  - rewrite H. simpl. destruct (primaryEdit marker) as [edit | e]; simpl;
      [| reflexivity].
    destruct (replaceOf edit _); simpl; reflexivity.
Qed.

Lemma applyEdit_suffix this ruleIndex (done rest : list ScriptFileMarker) :
  applyEdit this (done ++ rest) (length done) ruleIndex
  = replaceAll (fun i => undoOptionsAt this (done ++ rest) i ruleIndex)
               (length done) (map primaryEdit rest).
Proof.
  revert done. induction rest as [|m rest IH]; intros done.
  - apply applyEdit_done. rewrite length_app. simpl. lia.
  - rewrite (@applyEdit_step this (done ++ m :: rest) (length done) ruleIndex m).
    + simpl. destruct (primaryEdit m) as [edit | e]; [| reflexivity].
      destruct (replaceOf edit _) as [replacement | e]; [| reflexivity].
      specialize (IH (done ++ [m])).
      rewrite <- app_assoc in IH. simpl in IH.
      rewrite length_app in IH. simpl in IH.
      rewrite IH.
      replace (length done + 1)%nat with (S (length done)) by lia.
      reflexivity.
    + rewrite nth_error_app2 by lia. rewrite Nat.sub_diag. reflexivity.
Qed.

Lemma applyEdit_replaceAll this markers ruleIndex :
  applyEdit this markers 0 ruleIndex
  = replaceAll (fun i => undoOptionsAt this markers i ruleIndex) 0
               (map primaryEdit markers).
Proof. apply (applyEdit_suffix this ruleIndex [] markers). Qed.

Lemma undoOptionsAt_length this (m1 m2 : list ScriptFileMarker) i ruleIndex :
  length m1 = length m2 ->
  undoOptionsAt this m1 i ruleIndex = undoOptionsAt this m2 i ruleIndex.
Proof. unfold undoOptionsAt. intros ->. reflexivity. Qed.

Lemma replaceAll_ext (f g : nat -> UndoOptions) i firstEdits :
  (forall j, f j = g j) -> replaceAll f i firstEdits = replaceAll g i firstEdits.
Proof.
  intros Hfg. revert i. induction firstEdits as [|[edit | e] rest IH]; simpl; intros i.
  - reflexivity.
  - rewrite Hfg. destruct (replaceOf edit (g i)); [| reflexivity].
    rewrite IH. reflexivity.
  - reflexivity.
Qed.

Lemma applyEdit_first_edits this (k1 k2 : list ScriptFileMarker) ruleIndex :
  map primaryEdit k1 = map primaryEdit k2 ->
  applyEdit this k1 0 ruleIndex = applyEdit this k2 0 ruleIndex.
Proof.
  intros H. rewrite !applyEdit_replaceAll, H.
  apply replaceAll_ext. intros j. apply undoOptionsAt_length.
  rewrite <- (length_map primaryEdit k1), H. apply length_map.
Qed.

Lemma newRange_oneBased (edit : ScriptRegion) :
  oneBased edit ->
  newRange (startLineNumber edit - 1) (startColumnNumber edit - 1)
           (endLineNumber edit - 1) (endColumnNumber edit - 1)
  = Ok (mkRange (startLineNumber edit - 1) (startColumnNumber edit - 1)
                (endLineNumber edit - 1) (endColumnNumber edit - 1)).
Proof.
  intros [H1 [H2 [H3 H4]]]. unfold newRange.
  replace (startLineNumber edit - 1 <? 0) with false
    by (symmetry; apply Z.ltb_ge; lia).
  replace (startColumnNumber edit - 1 <? 0) with false
    by (symmetry; apply Z.ltb_ge; lia).
  replace (endLineNumber edit - 1 <? 0) with false
    by (symmetry; apply Z.ltb_ge; lia).
  replace (endColumnNumber edit - 1 <? 0) with false
    by (symmetry; apply Z.ltb_ge; lia).
  reflexivity.
Qed.

Lemma replaceOf_oneBased (edit : ScriptRegion) (options : UndoOptions) :
  oneBased edit ->
  replaceOf edit options
  = Ok (Replace (mkRange (startLineNumber edit - 1)
                         (startColumnNumber edit - 1)
                         (endLineNumber edit - 1)
                         (endColumnNumber edit - 1))
                (text edit) options).
Proof.
  intros H. unfold replaceOf. rewrite (newRange_oneBased H). reflexivity.
Qed.

(** Whatever [replaceOf] issues is the replacement of the edit's span. *)
Lemma replaceOf_ok_inv (edit : ScriptRegion) (options : UndoOptions) ev :
  replaceOf edit options = Ok ev ->
  ev = Replace (mkRange (startLineNumber edit - 1)
                        (startColumnNumber edit - 1)
                        (endLineNumber edit - 1)
                        (endColumnNumber edit - 1))
               (text edit) options.
Proof.
  unfold replaceOf, newRange.
  destruct (_ || _); simpl; [discriminate |].
  intros [= <-]. reflexivity.
Qed.

Lemma replaceAll_first_edits optionsAt i (markers : list ScriptFileMarker) :
  Forall hasOneBasedFirstEdit markers ->
  snd (replaceAll optionsAt i (map primaryEdit markers)) = Ok tt
  /\ Forall2 replacesFirstEdit markers
             (fst (replaceAll optionsAt i (map primaryEdit markers))).
Proof.
  intros H. revert i. induction H as [|m rest Hm Hrest IH]; simpl; intros i.
  - split; [reflexivity | constructor].
  - destruct Hm as [edit [others [He Hone]]].
    assert (Hp : primaryEdit m = Ok edit) by (unfold primaryEdit; rewrite He; reflexivity).
    rewrite Hp, (replaceOf_oneBased (optionsAt i) Hone). simpl.
    destruct (IH (S i)) as [Hok Hall].
    split; [exact Hok |].
    constructor; [| exact Hall].
    exists edit, others, (optionsAt i). split; [exact He | reflexivity].
Qed.

(** C8. For markers whose first correction edit has 1-based line and
    column numbers, the edit applicator issues exactly one replacement per
    marker, in order; the replacement of a marker covers the span of its
    first correction edit with every line and column number lowered by
    one, and writes that edit's text.  Further correction edits of a
    marker give rise to no replacement. *)
Theorem applyEdit_replaces_first_edit this (markers : list ScriptFileMarker)
    ruleIndex :
  Forall hasOneBasedFirstEdit markers ->
  snd (applyEdit this markers 0 ruleIndex) = Ok tt
  /\ Forall2 replacesFirstEdit markers
             (fst (applyEdit this markers 0 ruleIndex)).
Proof.
  intros H. rewrite applyEdit_replaceAll. apply replaceAll_first_edits, H.
Qed.

Lemma applyEdit_replaces_first_edit_witness :
  snd (applyEdit (newProvider true) [loud 10 "a"; loud 5 "c"] 0 0) = Ok tt
  /\ Forall2 replacesFirstEdit [loud 10 "a"; loud 5 "c"]
             (fst (applyEdit (newProvider true) [loud 10 "a"; loud 5 "c"] 0 0)).
Proof.
  apply applyEdit_replaces_first_edit.
  one_based_markers.
Defined.

(** A marker without any correction edit stops the chain with a
    [TypeError]; nothing is replaced for it or after it. *)
Lemma applyEdit_no_first_edit this (done rest : list ScriptFileMarker) m ruleIndex :
  edits (correction m) = [] ->
  applyEdit this (done ++ m :: rest) (length done) ruleIndex
  = ([], Throw TypeError).
Proof.
  intros He. rewrite applyEdit_suffix. simpl.
  unfold primaryEdit. rewrite He. reflexivity.
Qed.

(** ** The sort and the filter commute with maps that keep the lines *)

Lemma fmap_fmap {A B C : Type} (f : A -> B) (g : B -> C) (r : result A) :
  fmap g (fmap f r) = fmap (fun a => g (f a)) r.
Proof. destruct r; reflexivity. Qed.

Lemma fmap_ext {A B : Type} (f g : A -> B) (r : result A) :
  (forall a, f a = g a) -> fmap f r = fmap g r.
Proof. intros H. destruct r; simpl; [rewrite H |]; reflexivity. Qed.

Section Naturality.

Context {A B : Type}.
Variable f : A -> B.
Variable lineA : A -> result Z.
Variable lineB : B -> result Z.
Hypothesis lines_agree : forall a, lineB (f a) = lineA a.

Lemma compareFn_map x y :
  compareFn lineB (f x) (f y) = compareFn lineA x y.
Proof. unfold compareFn. rewrite !lines_agree. reflexivity. Qed.

Lemma insertSorted_map x l :
  insertSorted lineB (f x) (map f l) = fmap (map f) (insertSorted lineA x l).
Proof.
  induction l as [|y rest IH]; simpl.
  - reflexivity.
  - rewrite compareFn_map.
    destruct (compareFn lineA x y) as [c | e]; simpl; [| reflexivity].
    destruct (c <=? 0); [reflexivity |].
    rewrite IH. destruct (insertSorted lineA x rest); reflexivity.
Qed.

Lemma sort_map l : sort lineB (map f l) = fmap (map f) (sort lineA l).
Proof.
  induction l as [|x rest IH]; simpl.
  - reflexivity.
  - rewrite IH. destruct (sort lineA rest) as [s | e]; simpl; [| reflexivity].
    apply insertSorted_map.
Qed.

Lemma lastOf_map (l : list A) : lastOf (map f l) = fmap f (lastOf l).
Proof.
  unfold lastOf. rewrite length_map, nth_error_map.
  destruct (nth_error l (length l - 1)); reflexivity.
Qed.

Lemma pushDistinct_map acc rest :
  pushDistinct lineB (map f acc) (map f rest)
  = fmap (map f) (pushDistinct lineA acc rest).
Proof.
  revert acc. induction rest as [|x rest IH]; simpl; intros acc.
  - reflexivity.
  - rewrite lines_agree, lastOf_map.
    destruct (lineA x) as [lx | e]; simpl; [| reflexivity].
    destruct (lastOf acc) as [kept | e]; simpl; [| reflexivity].
    rewrite lines_agree.
    destruct (lineA kept) as [lk | e]; simpl; [| reflexivity].
    destruct (negb (lx =? lk)).
    + rewrite <- IH, map_app. reflexivity.
    + apply IH.
Qed.

Lemma filterUnique_map l :
  filterUnique lineB (map f l) = fmap (map f) (filterUnique lineA l).
Proof.
  destruct l as [|x rest]; simpl.
  - reflexivity.
  - apply (pushDistinct_map [x] rest).
Qed.

Lemma keptOf_map l :
  keptOf lineB (map f l) = fmap (map f) (keptOf lineA l).
Proof.
  unfold keptOf, deduplicate. rewrite sort_map.
  destruct (sort lineA l) as [s | e]; simpl; [| reflexivity].
  rewrite filterUnique_map.
  destruct (filterUnique lineA s); reflexivity.
Qed.

End Naturality.

Lemma map_snd_indexed {A : Type} (l : list A) : map snd (indexed l) = l.
Proof.
  unfold indexed. generalize 0%nat.
  induction l as [|x rest IH]; simpl; intros n.
  - reflexivity.
  - rewrite IH. reflexivity.
Qed.

Lemma map_indexed {A B : Type} (g : A -> B) (l : list A) :
  map (fun p => (fst p, g (snd p))) (indexed l) = indexed (map g l).
Proof.
  unfold indexed. rewrite length_map. generalize 0%nat.
  induction l as [|x rest IH]; simpl; intros n.
  - reflexivity.
  - rewrite IH. reflexivity.
Qed.

Lemma indexed_lookup {A : Type} (l : list A) i a :
  In (i, a) (indexed l) -> nth_error l i = Some a.
Proof.
  unfold indexed.
  assert (H : forall n, In (i, a) (combine (seq n (length l)) l) ->
                        (n <= i)%nat /\ nth_error l (i - n) = Some a).
  { induction l as [|x rest IH]; simpl; intros n Hin.
    - contradiction.
    - destruct Hin as [Heq | Hin].
      + injection Heq as <- <-. rewrite Nat.sub_diag. split; [lia | reflexivity].
      + destruct (IH (S n) Hin) as [Hle Hnth]. split; [lia |].
        replace (i - n)%nat with (S (i - S n)) by lia. exact Hnth. }
  intros Hin. destruct (H 0%nat Hin) as [_ Hnth].
  rewrite Nat.sub_0_r in Hnth. exact Hnth.
Qed.

(** The kept markers are the markers at the kept positions. *)
Lemma keptPositions_sound (batch : list ScriptFileMarker) tagged :
  keptOf (fun p : nat * ScriptFileMarker => startLineOf (snd p)) (indexed batch)
  = Ok tagged ->
  keptPositions batch = Ok (map fst tagged)
  /\ keptMarkers batch = Ok (map snd tagged)
  /\ Forall (fun p => nth_error batch (fst p) = Some (snd p)) tagged.
Proof.
  intros H. split; [| split].
  - unfold keptPositions. rewrite H. reflexivity.
  - unfold keptMarkers. rewrite <- (map_snd_indexed batch) at 1.
    rewrite (@keptOf_map _ _ snd
               (fun p : nat * ScriptFileMarker => startLineOf (snd p))
               startLineOf); [| reflexivity].
    rewrite H. reflexivity.
  - destruct (@keptOf_ok_inv _ _ _ _ H) as [_ ->].
    apply Forall_forall. intros [i m] Hin. simpl.
    apply indexed_lookup.
    eapply Permutation_in; [apply sortDesc_perm |].
    eapply uniqueDesc_incl. exact Hin.
Qed.

Lemma keptMarkers_first_edits (batch : list ScriptFileMarker) :
  keptOf lineOfEdit (map primaryEdit batch)
  = fmap (map primaryEdit) (keptMarkers batch).
Proof. apply keptOf_map. reflexivity. Qed.

Lemma keptPositions_first_edits (batch : list ScriptFileMarker) :
  fmap (map fst)
       (keptOf (fun q : nat * result ScriptRegion => lineOfEdit (snd q))
               (indexed (map primaryEdit batch)))
  = keptPositions batch.
Proof.
  rewrite <- map_indexed.
  rewrite (@keptOf_map _ _ (fun p => (fst p, primaryEdit (snd p)))
             (fun p : nat * ScriptFileMarker => startLineOf (snd p))
             (fun q : nat * result ScriptRegion => lineOfEdit (snd q)));
    [| reflexivity].
  rewrite fmap_fmap. unfold keptPositions.
  apply fmap_ext. intros l. rewrite map_map. reflexivity.
Qed.

(** C10. The positions kept by the de-duplication, the first edits of the
    kept markers, and the replacements the edit applicator issues for them
    are the same for two batches that agree position by position on the
    first correction edit of their markers; messages, levels, regions and
    further correction edits play no part. *)
Theorem kept_and_applied_depend_on_first_edits this ruleIndex
    (batch1 batch2 : list ScriptFileMarker) :
  map primaryEdit batch1 = map primaryEdit batch2 ->
  keptPositions batch1 = keptPositions batch2
  /\ fmap (map primaryEdit) (keptMarkers batch1)
     = fmap (map primaryEdit) (keptMarkers batch2)
  /\ fmap (fun kept => applyEdit this kept 0 ruleIndex) (keptMarkers batch1)
     = fmap (fun kept => applyEdit this kept 0 ruleIndex) (keptMarkers batch2).
Proof.
  intros H.
  assert (Hkept : fmap (map primaryEdit) (keptMarkers batch1)
                  = fmap (map primaryEdit) (keptMarkers batch2)).
  { rewrite <- !keptMarkers_first_edits, H. reflexivity. }
  split; [| split].
  - rewrite <- !keptPositions_first_edits, H. reflexivity.
  - exact Hkept.
  - destruct (keptMarkers batch1) as [k1 | e1], (keptMarkers batch2) as [k2 | e2];
      simpl in *; try discriminate Hkept.
    + injection Hkept as Hk. f_equal. apply applyEdit_first_edits, Hk.
    + injection Hkept as ->. reflexivity.
Qed.

Lemma kept_and_applied_depend_on_first_edits_witness :
  keptPositions [line 10 "a"; line 10 "b"; line 5 "c"]
  = keptPositions [loud 10 "a"; loud 10 "b"; loud 5 "c"]
  /\ fmap (map primaryEdit) (keptMarkers [line 10 "a"; line 10 "b"; line 5 "c"])
     = fmap (map primaryEdit) (keptMarkers [loud 10 "a"; loud 10 "b"; loud 5 "c"])
  /\ fmap (fun kept => applyEdit (newProvider true) kept 0 0)
          (keptMarkers [line 10 "a"; line 10 "b"; line 5 "c"])
     = fmap (fun kept => applyEdit (newProvider true) kept 0 0)
            (keptMarkers [loud 10 "a"; loud 10 "b"; loud 5 "c"]).
Proof.
  apply kept_and_applied_depend_on_first_edits. reflexivity.
Defined.

(** ** The scheduler *)

Lemma nextIndex_spec (uniqueMarkers markers : list ScriptFileMarker) index :
  (length uniqueMarkers <= length markers)%nat ->
  nextIndex uniqueMarkers markers index
  = if (length uniqueMarkers <? length markers)%nat then index else S index.
Proof.
  intros Hle. unfold nextIndex.
  destruct (Nat.eqb_spec (length uniqueMarkers) (length markers)) as [Heq | Hne];
    simpl.
  - rewrite Heq, Nat.ltb_irrefl. lia.
  - replace (length uniqueMarkers <? length markers)%nat with true; [reflexivity |].
    symmetry. apply Nat.ltb_lt. lia.
Qed.

Lemma deduplicateMarkers_lengths batch markers uniqueMarkers :
  deduplicateMarkers batch = Ok (markers, uniqueMarkers) ->
  length markers = length batch
  /\ (length uniqueMarkers <= length markers)%nat.
Proof.
  intros H. destruct (@deduplicate_ok_inv _ _ _ _ _ H) as [_ [-> ->]].
  split.
  - apply sortDesc_length.
  - apply uniqueDesc_length.
Qed.

Lemma executeRulesInOrder_pass fuel this settings document options index
      history sendRequest rule batch markers uniqueMarkers :
  languageClient this = Client sendRequest ->
  nth_error ruleOrder index = Some rule ->
  sendRequest (history ++ [SendRequest (fileName document)
                                       (getSettings settings rule)])
  = Markers batch ->
  deduplicateMarkers batch = Ok (markers, uniqueMarkers) ->
  snd (applyEdit this uniqueMarkers 0 index) = Ok tt ->
  executeRulesInOrder (S fuel) this settings document options index history
  = withPass (mkPass index markers uniqueMarkers)
      (executeRulesInOrder fuel this settings document options
         (nextIndex uniqueMarkers markers index)
         ((history ++ [SendRequest (fileName document)
                                   (getSettings settings rule)])
          ++ fst (applyEdit this uniqueMarkers 0 index))).
Proof.
  intros Hclient Hrule Hresp Hdedup Happly.
  cbn [executeRulesInOrder].
  rewrite Hclient, Hrule. cbv zeta. rewrite Hresp, Hdedup, Happly. reflexivity.
Qed.

Lemma executeRulesInOrder_visits fuel this settings document options index
      history :
  visitsInOrder index
    (passes (executeRulesInOrder fuel this settings document options index
               history)).
Proof.
  revert index history.
  induction fuel as [|fuel IH]; intros index history; simpl.
  - destruct (languageClient this) as [| |sendRequest]; simpl.
    + destruct (index <? _)%nat; exact I.
    + exact I.
    + destruct (nth_error ruleOrder index); exact I.
  - destruct (languageClient this) as [| |sendRequest]; simpl.
    + destruct (index <? _)%nat; exact I.
    + exact I.
    + destruct (nth_error ruleOrder index) as [rule|]; [| exact I].
      destruct (sendRequest _) as [batch | reason]; [| exact I].
      destruct (deduplicateMarkers batch) as [[markers uniqueMarkers] | e] eqn:Hd;
        [| exact I].
      destruct (deduplicateMarkers_lengths _ Hd) as [_ Hle].
      destruct (snd (applyEdit this uniqueMarkers 0 index)); simpl.
      * split; [reflexivity |].
        rewrite <- (nextIndex_spec _ _ index Hle). apply IH.
      * split; [reflexivity | exact I].
Qed.

(** C2. After a pass for rule index [index] whose edits were all issued,
    the scheduler calls itself again: on the same index exactly when the
    kept subset is strictly smaller than the batch received, and on
    [index + 1] exactly when it is not.  Hence the passes of a whole
    formatting run start at rule 0 and follow the rule order, a rule being
    passed again only after a pass that kept fewer markers than it
    received. *)
Theorem scheduler_revisits_on_strict_reduction :
  (forall fuel this settings document options index history sendRequest rule
          batch markers uniqueMarkers,
      languageClient this = Client sendRequest ->
      nth_error ruleOrder index = Some rule ->
      sendRequest (history ++ [SendRequest (fileName document)
                                           (getSettings settings rule)])
      = Markers batch ->
      deduplicateMarkers batch = Ok (markers, uniqueMarkers) ->
      snd (applyEdit this uniqueMarkers 0 index) = Ok tt ->
      exists next,
        executeRulesInOrder (S fuel) this settings document options index history
        = withPass (mkPass index markers uniqueMarkers)
            (executeRulesInOrder fuel this settings document options next
               ((history ++ [SendRequest (fileName document)
                                         (getSettings settings rule)])
                ++ fst (applyEdit this uniqueMarkers 0 index)))
        /\ (next = index <-> (length uniqueMarkers < length batch)%nat)
        /\ (next = (index + 1)%nat <-> ~ (length uniqueMarkers < length batch)%nat))
  /\ (forall fuel this settings document options token,
         visitsInOrder 0
           (passes (provideDocumentFormattingEdits fuel this settings document
                      options token))).
Proof.
  split.
  - intros fuel this settings document options index history sendRequest rule
           batch markers uniqueMarkers Hclient Hrule Hresp Hdedup Happly.
    exists (nextIndex uniqueMarkers markers index).
    split.
    + eapply executeRulesInOrder_pass; eassumption.
    + destruct (deduplicateMarkers_lengths _ Hdedup) as [Hlen Hle].
      rewrite (nextIndex_spec _ _ index Hle), <- Hlen.
      destruct (Nat.ltb_spec (length uniqueMarkers) (length markers)); lia.
  - intros. apply executeRulesInOrder_visits.
Qed.

Lemma scheduler_revisits_on_strict_reduction_witness :
  exists next,
    executeRulesInOrder 1 (connected collidingService) settings0 document0
      options0 0 []
    = withPass (mkPass 0 [line 10 "a"; line 10 "b"] [line 10 "a"])
        (executeRulesInOrder 0 (connected collidingService) settings0 document0
           options0 next
           (([] ++ [SendRequest (fileName document0)
                                (getSettings settings0 PSPlaceCloseBrace)])
            ++ fst (applyEdit (connected collidingService) [line 10 "a"] 0 0)))
    /\ (next = 0%nat <-> (1 < 2)%nat)
    /\ (next = (0 + 1)%nat <-> ~ (1 < 2)%nat).
Proof.
  apply (proj1 scheduler_revisits_on_strict_reduction 0%nat
           (connected collidingService) settings0 document0 options0 0%nat []
           collidingService PSPlaceCloseBrace
           [line 10 "a"; line 10 "b"] [line 10 "a"; line 10 "b"] [line 10 "a"]);
    reflexivity.
Defined.

(** ** Undo stops *)

(** With aggregation on (as the feature builds its provider), an edit
    stops before exactly when it is the first edit of a pass of the first
    rule, and stops after exactly when it is the last edit of a pass of the
    last rule. *)
Lemma undo_stops_by_position this (markers : list ScriptFileMarker)
      markerIndex ruleIndex :
  aggregateUndoStop this = true ->
  undoStopBefore (undoOptionsAt this markers markerIndex ruleIndex)
  = (Nat.eqb ruleIndex 0 && Nat.eqb markerIndex 0)
  /\ undoStopAfter (undoOptionsAt this markers markerIndex ruleIndex)
     = (Nat.eqb ruleIndex 2 && Nat.eqb markerIndex (length markers - 1)).
Proof.
  intros H. unfold undoOptionsAt. rewrite H. simpl. split; reflexivity.
Qed.

(** Without aggregation every edit is an undo step of its own. *)
Lemma undo_stops_without_aggregation this (markers : list ScriptFileMarker)
      markerIndex ruleIndex :
  aggregateUndoStop this = false ->
  undoOptionsAt this markers markerIndex ruleIndex = mkUndoOptions true true.
Proof. intros H. unfold undoOptionsAt. rewrite H. reflexivity. Qed.

(** Scenario C of the specification: one marker per rule and no
    collision.  Three edits; the first opens the undo group and the third
    closes it. *)
Example one_marker_per_rule :
  let run := provideDocumentFormattingEdits 4 (connected oneEachService)
               settings0 document0 options0 token0 in
  undoFlags (log run) = [(true, false); (false, false); (false, true)]
  /\ map passIndex (passes run) = [0; 1; 2]%nat
  /\ completion run = Thenable (Fulfilled TextEdit_0).
Proof. vm_compute. repeat split. Qed.

(** C3, at the input where it fails.  The first rule needs two passes
    (two markers on line 10), the other rules report nothing.  Two edits
    are applied in the run; the second one, which is also the last one,
    asks for an undo stop before it and for none after it. *)
Theorem undo_group_reopened_on_second_pass :
  let run := provideDocumentFormattingEdits 5 (connected collidingService)
               settings0 document0 options0 token0 in
  undoFlags (log run) = [(true, false); (true, false)]
  /\ map passIndex (passes run) = [0; 0; 1; 2]%nat
  /\ completion run = Thenable (Fulfilled TextEdit_0).
Proof. vm_compute. repeat split. Qed.

(** ** No language client *)

(** With the client set to [null] the guard fails: nothing is requested
    and the value of [TextEdit[0]] is returned at once. *)
Lemma null_client_returns_at_once fuel this settings document options token :
  languageClient this = Null ->
  provideDocumentFormattingEdits fuel this settings document options token
  = mkRun [] [] (Returned TextEdit_0).
Proof.
  intros H. unfold provideDocumentFormattingEdits.
  destruct fuel; simpl; rewrite H; reflexivity.
Qed.

(** C4, at the input where it fails.  The provider of a feature whose
    [setLanguageClient] has not been called yet holds [undefined], which
    is not [null]: the guard passes, and reading [sendRequest] raises a
    [TypeError].  No request is issued, but no result is produced
    either. *)
Theorem unset_client_raises fuel settings document options token :
  provideDocumentFormattingEdits fuel
    (documentFormattingEditProvider newFeature) settings document options token
  = mkRun [] [] (Raised TypeError).
Proof. destruct fuel; reflexivity. Qed.

(** ** What the caller gets *)

Lemma executeRulesInOrder_delivers_nothing fuel this settings document options
      index history :
  deliveredEdits
    (completion (executeRulesInOrder fuel this settings document options index
                   history)) = [].
Proof.
  revert index history.
  induction fuel as [|fuel IH]; intros index history; simpl.
  - destruct (languageClient this) as [| |sendRequest]; simpl.
    + destruct (index <? _)%nat; reflexivity.
    + reflexivity.
    + destruct (nth_error ruleOrder index); reflexivity.
  - destruct (languageClient this) as [| |sendRequest]; simpl.
    + destruct (index <? _)%nat; reflexivity.
    + reflexivity.
    + destruct (nth_error ruleOrder index) as [rule|]; [| reflexivity].
      destruct (sendRequest _) as [batch | reason]; [| reflexivity].
      destruct (deduplicateMarkers batch) as [[markers uniqueMarkers] | e];
        [| reflexivity].
      destruct (snd (applyEdit this uniqueMarkers 0 index)); simpl;
        [| reflexivity].
      specialize (IH (nextIndex uniqueMarkers markers index)
                     ((history ++ [SendRequest (fileName document)
                                               (getSettings settings rule)])
                      ++ fst (applyEdit this uniqueMarkers 0 index))).
      destruct (completion _) as [v | s | e']; simpl in *.
      * exact IH.
      * exact IH.
      * reflexivity.
Qed.

Lemma executeRulesInOrder_client_thenable fuel this settings document options
      history sendRequest :
  languageClient this = Client sendRequest ->
  synchronous
    (completion (executeRulesInOrder fuel this settings document options 0
                   history)) = false.
Proof.
  intros H. destruct fuel; simpl; rewrite H; simpl.
  - reflexivity.
  - destruct (sendRequest _) as [batch | reason]; [| reflexivity].
    destruct (deduplicateMarkers batch) as [[markers uniqueMarkers] | e];
      [| reflexivity].
    destruct (snd (applyEdit this uniqueMarkers 0 0)); simpl; [| reflexivity].
    destruct (completion _); reflexivity.
Qed.

(** C5 fails with a language client: the caller gets a promise, which is
    fulfilled only after the three rules have been asked. *)
Lemma connected_run_is_not_synchronous :
  ~ returnsEmptyListAtOnce
      (provideDocumentFormattingEdits 4 (connected quietService) settings0
         document0 options0 token0).
Proof.
  intros [v [H _]]. vm_compute in H. discriminate H.
Qed.

Lemma nextIndex_step (uniqueMarkers markers : list ScriptFileMarker) index :
  nextIndex uniqueMarkers markers index = index
  \/ nextIndex uniqueMarkers markers index = S index.
Proof.
  unfold nextIndex. destruct (negb _); [left; reflexivity | right; lia].
Qed.

(** A promise that is fulfilled has seen a pass of every rule from
    [index] on. *)
Lemma fulfilled_after_every_rule this settings document options sendRequest v :
  languageClient this = Client sendRequest ->
  forall fuel index history,
    adopt (completion (executeRulesInOrder fuel this settings document options
                         index history))
    = Thenable (Fulfilled v) ->
    forall i, (index <= i)%nat -> (i < length ruleOrder)%nat ->
              In i (map passIndex
                      (passes (executeRulesInOrder fuel this settings document
                                 options index history))).
Proof.
  intros Hclient.
  induction fuel as [|fuel IH]; intros index history; simpl; rewrite Hclient.
  - destruct (nth_error ruleOrder index) as [rule |] eqn:Hrule; simpl.
    + discriminate.
    + intros _ i Hle Hlt. apply nth_error_None in Hrule. simpl in Hrule. lia.
  - destruct (nth_error ruleOrder index) as [rule |] eqn:Hrule; simpl.
    2:{ intros _ i Hle Hlt. apply nth_error_None in Hrule. simpl in Hrule. lia. }
    destruct (sendRequest _) as [batch | reason]; simpl; [| discriminate].
    destruct (deduplicateMarkers batch) as [[markers uniqueMarkers] | e]; simpl;
      [| discriminate].
    destruct (snd (applyEdit this uniqueMarkers 0 index)); simpl;
      [| discriminate].
    intros Hc i Hle Hlt.
    destruct (Nat.eq_dec i index) as [-> | Hne]; [left; reflexivity |].
    right. apply IH.
    + destruct (completion _); simpl in *; exact Hc.
    + destruct (nextIndex_step uniqueMarkers markers index) as [-> | ->]; lia.
    + exact Hlt.
Qed.

(** C5, amended.  For every document, options and token the formatting
    operation hands no edit to its caller, whatever it applied to the
    buffer.  It hands back a value at once exactly when the language
    client is null: then the (empty) result is returned and nothing is
    requested.  With a language client the caller gets a promise, never a
    plain value, and that promise is fulfilled only after a pass of every
    rule of the rule order has run. *)
Theorem formatting_delivers_no_edits fuel this settings document options token :
  let run := provideDocumentFormattingEdits fuel this settings document
               options token in
  deliveredEdits (completion run) = []
  /\ ((exists v, completion run = Returned v) <-> languageClient this = Null)
  /\ (languageClient this = Null -> run = mkRun [] [] (Returned TextEdit_0))
  /\ (forall sendRequest, languageClient this = Client sendRequest ->
        synchronous (completion run) = false)
  /\ (forall v, completion run = Thenable (Fulfilled v) ->
        forall i, (i < length ruleOrder)%nat ->
                  In i (map passIndex (passes run))).
Proof.
  intros run. subst run.
  split; [apply executeRulesInOrder_delivers_nothing |].
  split; [| split; [| split]].
  - destruct (languageClient this) as [| |sendRequest] eqn:H.
    + split; [| discriminate]. intros [v Hv].
      unfold provideDocumentFormattingEdits in Hv.
      destruct fuel; simpl in Hv; rewrite H in Hv; discriminate Hv.
    + split; [reflexivity |]. intros _. exists TextEdit_0.
      rewrite (@null_client_returns_at_once fuel this settings document
                 options token H). reflexivity.
    + split; [| discriminate]. intros [v Hv].
      pose proof (@executeRulesInOrder_client_thenable fuel this settings
                    document options [] sendRequest H) as Hsync.
      unfold provideDocumentFormattingEdits in Hv. rewrite Hv in Hsync.
      discriminate Hsync.
  - apply null_client_returns_at_once.
  - intros sendRequest H. eapply executeRulesInOrder_client_thenable, H.
  - intros v Hv i Hi.
    destruct (languageClient this) as [| |sendRequest] eqn:H.
    + unfold provideDocumentFormattingEdits in Hv.
      destruct fuel; simpl in Hv; rewrite H in Hv; discriminate Hv.
    + rewrite (@null_client_returns_at_once fuel this settings document
                 options token H) in Hv. discriminate Hv.
    + unfold provideDocumentFormattingEdits in *.
      apply (@fulfilled_after_every_rule this settings document options
               sendRequest v H fuel 0%nat []); [| lia | exact Hi].
      rewrite Hv. reflexivity.
Qed.

Lemma formatting_delivers_no_edits_witness :
  provideDocumentFormattingEdits 0 (setLanguageClient (newProvider true) Null)
    settings0 document0 options0 token0
  = mkRun [] [] (Returned TextEdit_0)
  /\ synchronous
       (completion (provideDocumentFormattingEdits 4 (connected oneEachService)
                      settings0 document0 options0 token0)) = false
  /\ (forall i, (i < length ruleOrder)%nat ->
                In i (map passIndex
                        (passes (provideDocumentFormattingEdits 4
                                   (connected oneEachService) settings0
                                   document0 options0 token0)))).
Proof.
  split; [| split].
  - apply (proj1 (proj2 (proj2 (formatting_delivers_no_edits 0
                                  (setLanguageClient (newProvider true) Null)
                                  settings0 document0 options0 token0)))).
    reflexivity.
  - apply (proj1 (proj2 (proj2 (proj2
             (formatting_delivers_no_edits 4 (connected oneEachService)
                settings0 document0 options0 token0)))) oneEachService).
    reflexivity.
  - apply (proj2 (proj2 (proj2 (proj2
             (formatting_delivers_no_edits 4 (connected oneEachService)
                settings0 document0 options0 token0)))) TextEdit_0).
    reflexivity.
Defined.

(** With a service that finds nothing, the promise is fulfilled after one
    request per rule. *)
Lemma quiet_run_fulfils fuel settings document options token :
  let run := provideDocumentFormattingEdits (4 + fuel) (connected quietService)
               settings document options token in
  completion run = Thenable (Fulfilled TextEdit_0)
  /\ undoFlags (log run) = []
  /\ map passIndex (passes run) = [0; 1; 2]%nat.
Proof. repeat split. Qed.

(** ** The settings blob *)

Section StringFacts.

Local Open Scope string_scope.

Lemma prefix_here (n b : string) : String.prefix n (n ++ b) = true.
Proof.
  induction n as [|c n IH]; simpl.
  - destruct b; reflexivity.
  - destruct (ascii_dec c c) as [_ | Hne]; [exact IH | congruence].
Qed.

Lemma occursIn_here (n b : string) : occursIn n (n ++ b) = true.
Proof.
  destruct n as [|c n]; simpl.
  - destruct b; reflexivity.
  - destruct (ascii_dec c c) as [_ | Hne]; [| congruence].
    rewrite prefix_here. reflexivity.
Qed.

Lemma occursIn_app_r (n a b : string) :
  occursIn n b = true -> occursIn n (a ++ b) = true.
Proof.
  intros H. induction a as [|c a IH]; simpl.
  - exact H.
  - rewrite IH. apply orb_true_r.
Qed.

Lemma prefix_app_l (n a b : string) :
  String.prefix n a = true -> String.prefix n (a ++ b) = true.
Proof.
  revert a. induction n as [|c n IH]; intros a; simpl.
  - intros _. destruct (a ++ b); reflexivity.
  - destruct a as [|x a]; simpl; [discriminate |].
    destruct (ascii_dec c x); [apply IH | discriminate].
Qed.

Lemma occursIn_app_l (n a b : string) :
  occursIn n a = true -> occursIn n (a ++ b) = true.
Proof.
  induction a as [|x a IH]; intros H.
  - simpl in H. rewrite orb_false_r in H. destruct n; [| discriminate H].
    destruct b; reflexivity.
  - change (occursIn n (String x a ++ b))
      with (String.prefix n (String x a ++ b) || occursIn n (a ++ b)).
    change (occursIn n (String x a))
      with (String.prefix n (String x a) || occursIn n a) in H.
    apply orb_prop in H. destruct H as [H | H].
    + rewrite (prefix_app_l _ _ b H). reflexivity.
    + rewrite (IH H). apply orb_true_r.
Qed.

Lemma occursIn_middle (n a b : string) : occursIn n (a ++ n ++ b) = true.
Proof. apply occursIn_app_r, occursIn_here. Qed.

Lemma append_assoc (a b c : string) : (a ++ b) ++ c = a ++ (b ++ c).
Proof.
  induction a as [|x a IH]; simpl; [reflexivity | rewrite IH; reflexivity].
Qed.

(** A needle that starts with a character no numeral has is not found
    inside a numeral, nor across its right end. *)
Lemma occursIn_numeral (c : ascii) (n d t : string) :
  numeralChar c = false -> numeral d = true ->
  occursIn (String c n) (d ++ t) = occursIn (String c n) t.
Proof.
  intros Hc. induction d as [|x d IH]; simpl; intros Hd.
  - reflexivity.
  - apply andb_prop in Hd. destruct Hd as [Hx Hd].
    destruct (ascii_dec c x) as [-> | Hne]; [congruence |].
    simpl. apply IH, Hd.
Qed.

Lemma numeral_uint (d : Decimal.uint) :
  numeral (DecimalString.NilEmpty.string_of_uint d) = true.
Proof. induction d; simpl; try assumption; reflexivity. Qed.

Lemma numeral_uint0 (d : Decimal.uint) :
  numeral (DecimalString.NilZero.string_of_uint d) = true.
Proof.
  destruct d; first [reflexivity | apply (numeral_uint (_ d))].
Qed.

Lemma numeral_numberToString (z : Z) : numeral (numberToString z) = true.
Proof.
  unfold numberToString. destruct z as [|p|p]; simpl.
  - reflexivity.
  - apply numeral_uint0.
  - apply numeral_uint0.
Qed.

End StringFacts.

Lemma getSettings_indentation settings :
  getSettings settings PSUseConsistentIndentation
  = (("@{" ++ LF
      ++ spaces 4 ++ "IncludeRules = @('PSUseConsistentIndentation')" ++ LF
      ++ spaces 4 ++ "Rules = @{" ++ LF
      ++ spaces 16 ++ "PSUseConsistentIndentation = @{" ++ LF
      ++ spaces 20 ++ "Enable = $true" ++ LF)
     ++ (spaces 20 ++ "IndentationSize" ++ " = "
         ++ numberToString (indentationSize (codeformatting settings)) ++ LF)
     ++ (spaces 16 ++ "}" ++ LF
         ++ spaces 4 ++ "}" ++ LF
         ++ "}"))%string.
Proof.
  unfold getSettings.
  change (ruleProperty settings PSUseConsistentIndentation) with 
    (PSUseConsistentIndentation ++ " = @{" ++ LF
     ++ spaces 20 ++ "Enable = $true" ++ LF
     ++ spaces 20 ++ "IndentationSize = "
     ++ numberToString (indentationSize (codeformatting settings)) ++ LF
     ++ spaces 16 ++ "}")%string.
  repeat rewrite append_assoc. reflexivity.
Qed.

Lemma indentation_has_no_flags settings :
  mentions "OnSameLine" (getSettings settings PSUseConsistentIndentation) = false
  /\ mentions "NewLineAfter" (getSettings settings PSUseConsistentIndentation)
     = false.
Proof.
  rewrite getSettings_indentation.
  set (num := numberToString _).
  assert (Hnum : numeral num = true) by apply numeral_numberToString.
  clearbody num. unfold mentions.
  split; simpl; rewrite append_assoc;
    rewrite occursIn_numeral by (reflexivity || exact Hnum); reflexivity.
Qed.

Lemma indentation_carries_size settings :
  carries "IndentationSize"
          (numberToString (indentationSize (codeformatting settings)))
          (getSettings settings PSUseConsistentIndentation) = true
  /\ carries "Enable" "$true" (getSettings settings PSUseConsistentIndentation)
     = true.
Proof.
  rewrite getSettings_indentation. unfold carries. split.
  - apply occursIn_middle.
  - apply occursIn_app_l. reflexivity.
Qed.

(** Any rule without a case of its own gets the enable flag and nothing
    else, whatever the settings. *)
Lemma ruleProperty_default settings rule :
  rule <> PSPlaceOpenBrace -> rule <> PSUseConsistentIndentation ->
  ruleProperty settings rule
  = (rule ++ " = @{" ++ LF
     ++ spaces 20 ++ "Enable = $true" ++ LF
     ++ spaces 16 ++ "}")%string.
Proof.
  intros H1 H2. unfold ruleProperty.
  apply String.eqb_neq in H1. apply String.eqb_neq in H2.
  rewrite H1, H2. reflexivity.
Qed.

(** C9 fails for the close-brace rule: it is a brace-placement rule of the
    rule order, and its blob has neither brace flag. *)
Lemma close_brace_rule_has_no_flags :
  ~ (In PSPlaceCloseBrace ruleOrder ->
     braceRulesCarryFlags settings0 PSPlaceCloseBrace).
Proof.
  intros H.
  destruct (H (or_introl eq_refl) eq_refl) as [Hflag _].
  vm_compute in Hflag. discriminate Hflag.
Qed.

(** C9, amended.  For every rule of the rule order the blob enables the
    rule.  The blob of the open-brace rule carries the two brace flags as
    booleans and no indentation size; the blob of the indentation rule
    carries the indentation size as a numeral and no brace flag; the blob
    of any other rule of the order, the close-brace rule, carries the
    enable flag only. *)
Theorem getSettings_shape settings rule :
  In rule ruleOrder ->
  let blob := getSettings settings rule in
  let format := codeformatting settings in
  carries "Enable" "$true" blob = true
  /\ (if String.eqb rule PSPlaceOpenBrace then
        carries "OnSameLine"
                ("$" ++ booleanToString (openBraceOnSameLine format)) blob = true
        /\ carries "NewLineAfter"
                   ("$" ++ booleanToString (newLineAfterOpenBrace format)) blob
           = true
        /\ mentions "IndentationSize" blob = false
      else if String.eqb rule PSUseConsistentIndentation then
        carries "IndentationSize" (numberToString (indentationSize format)) blob
        = true
        /\ numeral (numberToString (indentationSize format)) = true
        /\ mentions "OnSameLine" blob = false
        /\ mentions "NewLineAfter" blob = false
      else
        ruleProperty settings rule
        = (rule ++ " = @{" ++ LF
           ++ spaces 20 ++ "Enable = $true" ++ LF
           ++ spaces 16 ++ "}")%string
        /\ mentions "OnSameLine" blob = false
        /\ mentions "NewLineAfter" blob = false
        /\ mentions "IndentationSize" blob = false).
Proof.
  intros Hin blob format. subst blob format.
  destruct Hin as [<- | [<- | [<- | []]]].
  - vm_compute. repeat split.
  - destruct settings as [[onSameLine newLineAfter size]].
    destruct onSameLine, newLineAfter; vm_compute; repeat split.
  - change (String.eqb PSUseConsistentIndentation PSPlaceOpenBrace) with false.
    change (String.eqb PSUseConsistentIndentation PSUseConsistentIndentation)
      with true.
    cbv iota.
    destruct (indentation_carries_size settings) as [Hsize Henable].
    destruct (indentation_has_no_flags settings) as [Hsame Hnew].
    repeat split; try assumption.
    apply numeral_numberToString.
Qed.

Lemma getSettings_shape_witness :
  carries "Enable" "$true" (getSettings settings0 PSPlaceOpenBrace) = true
  /\ carries "OnSameLine" "$true" (getSettings settings0 PSPlaceOpenBrace) = true
  /\ carries "NewLineAfter" "$false" (getSettings settings0 PSPlaceOpenBrace)
     = true
  /\ mentions "IndentationSize" (getSettings settings0 PSPlaceOpenBrace) = false.
Proof.
  apply (@getSettings_shape settings0 PSPlaceOpenBrace).
  right. left. reflexivity.
Defined.

(** * Further properties *)

Unset Implicit Arguments.

(** ** More on the reference functions *)

Section ReferenceOrder.

Context {A : Type}.
Variable k : A -> Z.

Lemma find_insertDesc z x s :
  find (fun b => k b =? z) (insertDesc k x s)
  = if k x =? z then Some x else find (fun b => k b =? z) s.
Proof.
  induction s as [|y rest IH]; simpl.
  - reflexivity.
  - destruct (k y <=? k x) eqn:Hc; simpl.
    + reflexivity.
    + rewrite IH. apply Z.leb_gt in Hc.
      destruct (k y =? z) eqn:Hy; [| reflexivity].
      destruct (k x =? z) eqn:Hx; [| reflexivity].
      apply Z.eqb_eq in Hy. apply Z.eqb_eq in Hx. lia.
Qed.

(** The sort is stable: the first element of a line is the same before
    and after. *)
Lemma find_sortDesc z l :
  find (fun b => k b =? z) (sortDesc k l) = find (fun b => k b =? z) l.
Proof.
  induction l as [|x rest IH]; simpl.
  - reflexivity.
  - rewrite find_insertDesc, IH. reflexivity.
Qed.

Lemma dropSame_first prev r a :
  descending k r ->
  Forall (fun b => k b <= prev) r ->
  In a (dropSame k prev r) ->
  k a < prev /\ find (fun b => k b =? k a) r = Some a.
Proof.
  unfold descending. revert prev.
  induction r as [|y rest IH]; simpl; intros prev Hs Hb Hin.
  - contradiction.
  - apply StronglySorted_inv in Hs. destruct Hs as [Hrest Hy].
    inversion Hb as [|? ? Hyp Hbrest]; subst.
    destruct (k y =? prev) eqn:Hc.
    + apply Z.eqb_eq in Hc.
      destruct (IH prev Hrest Hbrest Hin) as [Hlt Hfind].
      split; [exact Hlt |].
      replace (k y =? k a) with false by (symmetry; apply Z.eqb_neq; lia).
      exact Hfind.
    + apply Z.eqb_neq in Hc. destruct Hin as [-> | Hin].
      * split; [lia |]. rewrite Z.eqb_refl. reflexivity.
      * destruct (IH (k y) Hrest Hy Hin) as [Hlt Hfind].
        split; [lia |].
        replace (k y =? k a) with false by (symmetry; apply Z.eqb_neq; lia).
        exact Hfind.
Qed.

Lemma uniqueDesc_first s a :
  descending k s -> In a (uniqueDesc k s) ->
  find (fun b => k b =? k a) s = Some a.
Proof.
  destruct s as [|x rest]; simpl; intros Hs Hin.
  - contradiction.
  - apply StronglySorted_inv in Hs. destruct Hs as [Hrest Hx].
    destruct Hin as [-> | Hin].
    + rewrite Z.eqb_refl. reflexivity.
    + destruct (@dropSame_first (k x) rest a Hrest Hx Hin) as [Hlt Hfind].
      replace (k x =? k a) with false by (symmetry; apply Z.eqb_neq; lia).
      exact Hfind.
Qed.

Lemma dropSame_covers prev r a :
  In a r -> k a = prev \/ exists b, In b (dropSame k prev r) /\ k b = k a.
Proof.
  revert prev. induction r as [|y rest IH]; simpl; intros prev Hin.
  - contradiction.
  - destruct (k y =? prev) eqn:Hc.
    + apply Z.eqb_eq in Hc. destruct Hin as [<- | Hin].
      * left. exact Hc.
      * apply IH, Hin.
    + destruct Hin as [<- | Hin].
      * right. exists y. split; [left; reflexivity | reflexivity].
      * destruct (IH (k y) Hin) as [Heq | [b [Hb Hkb]]].
        -- right. exists y. split; [left; reflexivity | symmetry; exact Heq].
        -- right. exists b. split; [right; exact Hb | exact Hkb].
Qed.

Lemma uniqueDesc_covers s a :
  In a s -> exists b, In b (uniqueDesc k s) /\ k b = k a.
Proof.
  destruct s as [|x rest]; simpl; intros Hin.
  - contradiction.
  - destruct Hin as [<- | Hin].
    + exists x. split; [left; reflexivity | reflexivity].
    + destruct (dropSame_covers (k x) rest a Hin) as [Heq | [b [Hb Hkb]]].
      * exists x. split; [left; reflexivity | symmetry; exact Heq].
      * exists b. split; [right; exact Hb | exact Hkb].
Qed.

Lemma dropSame_full prev r :
  length (dropSame k prev r) = length r -> dropSame k prev r = r.
Proof.
  revert prev. induction r as [|y rest IH]; simpl; intros prev Hlen.
  - reflexivity.
  - destruct (k y =? prev).
    + pose proof (dropSame_length k prev rest). lia.
    + simpl in Hlen. rewrite (IH (k y)) by lia. reflexivity.
Qed.

Lemma uniqueDesc_full s :
  length (uniqueDesc k s) = length s -> uniqueDesc k s = s.
Proof.
  destruct s as [|x rest]; simpl; intros Hlen.
  - reflexivity.
  - rewrite dropSame_full by lia. reflexivity.
Qed.

Lemma descending_NoDup_strict s :
  descending k s -> NoDup (map k s) -> strictlyDescending k s.
Proof.
  unfold descending, strictlyDescending.
  induction 1 as [|x rest Hs IH Hx]; simpl; intros Hnd.
  - constructor.
  - inversion Hnd as [|? ? Hnotin Hnd']; subst.
    constructor; [apply IH, Hnd' |].
    rewrite Forall_forall in *. intros y Hy.
    specialize (Hx y Hy).
    assert (k y <> k x).
    { intros Heq. apply Hnotin. rewrite <- Heq. apply in_map, Hy. }
    lia.
Qed.

(** Nothing is dropped exactly when the lines are pairwise different. *)
Lemma kept_full_iff l :
  length (uniqueDesc k (sortDesc k l)) = length l <-> NoDup (map k l).
Proof.
  pose proof (sortDesc_perm k l) as Hperm.
  pose proof (sortDesc_descending k l) as Hdesc.
  split.
  - intros Hlen. rewrite <- (sortDesc_length k l) in Hlen.
    apply uniqueDesc_full in Hlen.
    pose proof (uniqueDesc_strict Hdesc) as Hs. rewrite Hlen in Hs.
    eapply Permutation_NoDup.
    + apply Permutation_map, Hperm.
    + apply strictlyDescending_NoDup, Hs.
  - intros Hnd.
    assert (Hnd' : NoDup (map k (sortDesc k l))).
    { eapply Permutation_NoDup; [| exact Hnd].
      apply Permutation_map, Permutation_sym, Hperm. }
    rewrite (uniqueDesc_fixed (descending_NoDup_strict _ Hdesc Hnd')).
    apply sortDesc_length.
Qed.

End ReferenceOrder.

(** ** More on the code's sort and filter *)

Lemma find_ext_in {X : Type} (p q : X -> bool) (l : list X) :
  (forall x, In x l -> p x = q x) -> find p l = find q l.
Proof.
  induction l as [|x rest IH]; simpl; intros H.
  - reflexivity.
  - rewrite (H x (or_introl eq_refl)), IH; [reflexivity |].
    intros y Hy. apply H. right. exact Hy.
Qed.

Section MoreKeptFacts.

Context {A : Type}.
Variable lineOf : A -> result Z.

Let k := lineOr0 lineOf.

Lemma hasLine_line a z : lineOf a = Ok z -> k a = z.
Proof. unfold k, lineOr0. intros ->. reflexivity. Qed.

Lemma short_kept l kept :
  (length l <= 1)%nat -> keptOf lineOf l = Ok kept -> kept = l.
Proof.
  destruct l as [|a [|b rest]]; simpl; intros Hlen H.
  - injection H as <-. reflexivity.
  - injection H as <-. reflexivity.
  - lia.
Qed.

Lemma descending_lineAtLeast l :
  Forall (hasLine lineOf) l -> descending k l ->
  StronglySorted (lineAtLeast lineOf) l.
Proof.
  unfold descending.
  intros Hl Hs. induction Hs as [|x rest Hs IH Hx].
  - constructor.
  - inversion Hl as [|? ? Hlx Hlrest]; subst.
    constructor; [apply IH, Hlrest |].
    rewrite Forall_forall in *. intros y Hy.
    exists (k x), (k y).
    split; [exact Hlx |]. split; [apply Hlrest, Hy | apply Hx, Hy].
Qed.

Lemma sort_sorted_permutation l s :
  sort lineOf l = Ok s ->
  Permutation s l /\ StronglySorted (lineAtLeast lineOf) s.
Proof.
  intros H.
  destruct (le_lt_dec (length l) 1) as [Hle | Hgt].
  - destruct l as [|a [|b rest]]; simpl in Hle; try lia.
    + injection H as <-. split; constructor.
    + injection H as <-. split; [apply Permutation_refl |].
      constructor; constructor.
  - assert (Hl : Forall (hasLine lineOf) l)
      by (eapply sort_ok_hasLine; [exact H | lia]).
    rewrite (sort_reference Hl) in H. injection H as <-.
    split; [apply sortDesc_perm |].
    apply descending_lineAtLeast; [| apply sortDesc_descending].
    eapply Permutation_Forall; [apply Permutation_sym, sortDesc_perm | exact Hl].
Qed.

Lemma kept_first_of_line l kept a z :
  keptOf lineOf l = Ok kept ->
  In a kept ->
  lineOf a = Ok z ->
  find (fun b => match lineOf b with Ok y => y =? z | Throw _ => false end) l
  = Some a.
Proof.
  intros H Hin Hz.
  destruct (@keptOf_ok_inv _ _ _ _ H) as [[Hlen | Hl] Hkept].
  - rewrite (short_kept _ _ Hlen H) in Hin.
    destruct l as [|b [|c rest]]; simpl in Hlen; try lia.
    + contradiction.
    + destruct Hin as [-> | []]. simpl. rewrite Hz, Z.eqb_refl. reflexivity.
  - rewrite (find_ext_in _ (fun b => k b =? z)).
    + rewrite <- find_sortDesc. rewrite <- (hasLine_line _ _ Hz).
      apply uniqueDesc_first; [apply sortDesc_descending |].
      rewrite Hkept in Hin. exact Hin.
    + intros b Hb. rewrite Forall_forall in Hl. rewrite (Hl b Hb). reflexivity.
Qed.

Lemma kept_covers_lines l kept a :
  keptOf lineOf l = Ok kept ->
  In a l ->
  exists b, In b kept /\ lineOf b = lineOf a.
Proof.
  intros H Hin.
  destruct (@keptOf_ok_inv _ _ _ _ H) as [[Hlen | Hl] Hkept].
  - rewrite (short_kept _ _ Hlen H). exists a. split; [exact Hin | reflexivity].
  - assert (Hin' : In a (sortDesc k l)).
    { eapply Permutation_in; [apply Permutation_sym, sortDesc_perm | exact Hin]. }
    destruct (uniqueDesc_covers k _ _ Hin') as [b [Hb Hkb]].
    exists b. rewrite Hkept. split; [exact Hb |].
    pose proof (kept_hasLine Hl) as Hkl.
    rewrite Forall_forall in Hkl, Hl.
    rewrite (Hkl b Hb), (Hl a Hin). fold k. rewrite Hkb. reflexivity.
Qed.

Lemma kept_incl l kept : keptOf lineOf l = Ok kept -> incl kept l.
Proof.
  intros H a Ha.
  destruct (@keptOf_ok_inv _ _ _ _ H) as [_ ->].
  eapply Permutation_in; [apply sortDesc_perm |].
  eapply uniqueDesc_incl. exact Ha.
Qed.

Lemma kept_all_iff_distinct l kept :
  keptOf lineOf l = Ok kept ->
  (length kept = length l <-> NoDup (map lineOf l)).
Proof.
  intros H.
  destruct (@keptOf_ok_inv _ _ _ _ H) as [[Hlen | Hl] Hkept].
  - rewrite (short_kept _ _ Hlen H). split; [| reflexivity].
    intros _. apply NoDup_short. rewrite length_map. exact Hlen.
  - rewrite Hkept, (map_lineOf_hasLine Hl). fold k.
    rewrite kept_full_iff. split.
    + apply NoDup_map_Ok.
    + apply NoDup_map_inv.
Qed.

(** The only exception of the sort and the filter is the [TypeError] of
    a missing first edit. *)
Hypothesis lineOf_throws : forall a e, lineOf a = Throw e -> e = TypeError.

Lemma compareFn_throws x y e : compareFn lineOf x y = Throw e -> e = TypeError.
Proof.
  unfold compareFn.
  destruct (lineOf x) eqn:Hx; simpl; [| intros [= <-]; eapply lineOf_throws, Hx].
  destruct (lineOf y) eqn:Hy; simpl; [discriminate |].
  intros [= <-]. eapply lineOf_throws, Hy.
Qed.

Lemma insertSorted_throws x l e :
  insertSorted lineOf x l = Throw e -> e = TypeError.
Proof.
  induction l as [|y rest IH]; simpl.
  - discriminate.
  - destruct (compareFn lineOf x y) as [c | e'] eqn:Hc; simpl.
    + destruct (c <=? 0); [discriminate |].
      destruct (insertSorted lineOf x rest) eqn:Hi; simpl; [discriminate |].
      intros [= <-]. apply IH. reflexivity.
    + intros [= <-]. eapply compareFn_throws, Hc.
Qed.

Lemma sort_throws l e : sort lineOf l = Throw e -> e = TypeError.
Proof.
  induction l as [|x rest IH]; simpl.
  - discriminate.
  - destruct (sort lineOf rest) eqn:Hs; simpl.
    + apply insertSorted_throws.
    + intros [= <-]. apply IH. reflexivity.
Qed.

Lemma pushDistinct_throws acc rest e :
  pushDistinct lineOf acc rest = Throw e -> e = TypeError.
Proof.
  revert acc. induction rest as [|x rest IH]; simpl; intros acc.
  - discriminate.
  - destruct (lineOf x) eqn:Hx; simpl;
      [| intros [= <-]; eapply lineOf_throws, Hx].
    unfold lastOf.
    destruct (nth_error acc (length acc - 1)) as [kept |]; simpl;
      [| intros [= <-]; reflexivity].
    destruct (lineOf kept) eqn:Hk; simpl;
      [| intros [= <-]; eapply lineOf_throws, Hk].
    destruct (negb _); apply IH.
Qed.

Lemma deduplicate_throws l e : deduplicate lineOf l = Throw e -> e = TypeError.
Proof.
  unfold deduplicate.
  destruct (sort lineOf l) as [s | e'] eqn:Hs; simpl.
  - destruct s as [|x rest]; simpl; [discriminate |].
    destruct (pushDistinct lineOf [x] rest) eqn:Hp; simpl; [discriminate |].
    intros [= <-]. eapply pushDistinct_throws, Hp.
  - intros [= <-]. eapply sort_throws, Hs.
Qed.

Lemma deduplicate_missing_line l a e :
  (2 <= length l)%nat -> In a l -> lineOf a = Throw e ->
  deduplicate lineOf l = Throw TypeError.
Proof.
  intros Hlen Hin Ha.
  destruct (deduplicate lineOf l) as [[markers uniqueMarkers] | e'] eqn:Hd.
  - exfalso. unfold deduplicate in Hd. inv_bind Hd.
    pose proof (@sort_ok_hasLine _ _ _ _ E Hlen) as Hl.
    rewrite Forall_forall in Hl. specialize (Hl a Hin).
    unfold hasLine in Hl. congruence.
  - rewrite (deduplicate_throws _ _ Hd). reflexivity.
Qed.

End MoreKeptFacts.

(** ** The marker batch: sort order, ties, coverage, collisions *)

Lemma startLineOf_throws (m : ScriptFileMarker) (e : JsError) :
  startLineOf m = Throw e -> e = TypeError.
Proof.
  unfold startLineOf, primaryEdit.
  destruct (edits (correction m)); simpl; [| discriminate].
  intros [= <-]. reflexivity.
Qed.

Lemma deduplicateMarkers_total (batch : list ScriptFileMarker) :
  Forall hasFirstEdit batch ->
  deduplicateMarkers batch
  = Ok (sortDesc (lineOr0 startLineOf) batch,
        uniqueDesc (lineOr0 startLineOf) (sortDesc (lineOr0 startLineOf) batch)).
Proof.
  intros H. apply deduplicate_reference, firstEdits_safe, H.
Qed.

Lemma keptMarkers_total (batch : list ScriptFileMarker) :
  Forall hasFirstEdit batch ->
  keptMarkers batch
  = Ok (uniqueDesc (lineOr0 startLineOf) (sortDesc (lineOr0 startLineOf) batch)).
Proof.
  intros H. apply keptOf_reference, firstEdits_safe, H.
Qed.

Lemma firstEdits_hasLine (batch : list ScriptFileMarker) :
  Forall hasFirstEdit batch -> Forall (hasLine startLineOf) batch.
Proof.
  intros H. eapply Forall_impl; [| exact H].
  intros m. apply firstEdit_hasLine.
Qed.

(** X1. The array the scheduler holds after [markers.sort] has the
    markers of the batch, each as often as the batch has it, in an order
    in which start lines never increase. *)
Theorem sorted_markers_permute_batch (batch : list ScriptFileMarker) :
  Forall hasFirstEdit batch ->
  exists markers uniqueMarkers,
    deduplicateMarkers batch = Ok (markers, uniqueMarkers)
    /\ Permutation markers batch
    /\ StronglySorted (lineAtLeast startLineOf) markers.
Proof.
  intros H. do 2 eexists. split; [apply deduplicateMarkers_total, H |].
  apply (sort_sorted_permutation startLineOf).
  apply sort_reference, firstEdits_hasLine, H.
Qed.

Lemma sorted_markers_permute_batch_witness :
  exists markers uniqueMarkers,
    deduplicateMarkers [line 5 "c"; line 10 "a"; line 10 "b"]
    = Ok (markers, uniqueMarkers)
    /\ Permutation markers [line 5 "c"; line 10 "a"; line 10 "b"]
    /\ StronglySorted (lineAtLeast startLineOf) markers.
Proof.
  apply sorted_markers_permute_batch.
  repeat constructor; discriminate.
Defined.

(** X2. Of the markers of the batch that start on one line, the one kept
    is the one that comes first in the batch as the service returned
    it. *)
Theorem kept_marker_is_first_of_its_line (batch : list ScriptFileMarker) :
  Forall hasFirstEdit batch ->
  exists kept,
    keptMarkers batch = Ok kept
    /\ forall m l, In m kept -> startLineOf m = Ok l ->
                   find (onLine l) batch = Some m.
Proof.
  intros H. eexists. split; [apply keptMarkers_total, H |].
  intros m l Hin Hl.
  apply (kept_first_of_line startLineOf batch _ m l
           (keptMarkers_total batch H) Hin Hl).
Qed.

Lemma kept_marker_is_first_of_its_line_witness :
  exists kept,
    keptMarkers [line 5 "c"; line 10 "a"; line 10 "b"] = Ok kept
    /\ forall m l, In m kept -> startLineOf m = Ok l ->
                   find (onLine l) [line 5 "c"; line 10 "a"; line 10 "b"]
                   = Some m.
Proof.
  apply kept_marker_is_first_of_its_line.
  repeat constructor; discriminate.
Defined.

(** X3. The kept markers are markers of the batch, and every start line
    that occurs in the batch is the start line of a kept marker: a pass
    leaves no line of the batch without an edit. *)
Theorem kept_markers_cover_every_line (batch : list ScriptFileMarker) :
  Forall hasFirstEdit batch ->
  exists kept,
    keptMarkers batch = Ok kept
    /\ incl kept batch
    /\ forall m, In m batch ->
                 exists m', In m' kept /\ startLineOf m' = startLineOf m.
Proof.
  intros H. eexists. split; [apply keptMarkers_total, H |]. split.
  - apply (kept_incl startLineOf batch _ (keptMarkers_total batch H)).
  - intros m Hin.
    apply (kept_covers_lines startLineOf batch _ m
             (keptMarkers_total batch H) Hin).
Qed.

Lemma kept_markers_cover_every_line_witness :
  exists kept,
    keptMarkers [line 5 "c"; line 10 "a"; line 10 "b"] = Ok kept
    /\ incl kept [line 5 "c"; line 10 "a"; line 10 "b"]
    /\ forall m, In m [line 5 "c"; line 10 "a"; line 10 "b"] ->
                 exists m', In m' kept /\ startLineOf m' = startLineOf m.
Proof.
  apply kept_markers_cover_every_line.
  repeat constructor; discriminate.
Defined.



Lemma marker_without_edits_in_batch (batch : list ScriptFileMarker) :
  (2 <= length batch)%nat ->
  Exists (fun m => edits (correction m) = []) batch ->
  deduplicateMarkers batch = Throw TypeError.
Proof.
  intros Hlen Hex. apply Exists_exists in Hex. destruct Hex as [m [Hin Hm]].
  apply (deduplicate_missing_line startLineOf startLineOf_throws batch m
           TypeError Hlen Hin).
  unfold startLineOf, primaryEdit. rewrite Hm. reflexivity.
Qed.

(** X5. In a batch of two or more markers, one marker without any
    correction edit makes the comparison function of the sort throw: the
    batch has no kept subset, and the [then] callback ends with a
    [TypeError]. *)
Theorem marker_without_edits_fails_batch (batch : list ScriptFileMarker) :
  (2 <= length batch)%nat ->
  Exists (fun m => edits (correction m) = []) batch ->
  deduplicateMarkers batch = Throw TypeError.
Proof. apply marker_without_edits_in_batch. Qed.

Lemma marker_without_edits_fails_batch_witness :
  deduplicateMarkers [line 5 "c"; bare 7] = Throw TypeError.
Proof.
  apply marker_without_edits_fails_batch.
  - simpl. lia.
  - right. left. reflexivity.
Defined.

(** ** More on the edit applicator *)

Lemma oneBased_hasFirstEdit (markers : list ScriptFileMarker) :
  Forall hasOneBasedFirstEdit markers -> Forall hasFirstEdit markers.
Proof.
  intros H. eapply Forall_impl; [| exact H].
  intros m [edit [others [He _]]]. unfold hasFirstEdit. rewrite He. discriminate.
Qed.

(** The chain over [done ++ more] when the markers of [done] have 1-based
    first edits: their replacements, then whatever the chain over [more]
    gives. *)
Lemma replaceAll_after optionsAt i (done : list ScriptFileMarker)
      (more : list (result ScriptRegion)) :
  Forall hasOneBasedFirstEdit done ->
  exists issued,
    Forall2 replacesFirstEdit done issued
    /\ replaceAll optionsAt i (map primaryEdit done ++ more)
       = (issued ++ fst (replaceAll optionsAt (length done + i) more),
          snd (replaceAll optionsAt (length done + i) more)).
Proof.
  intros Hdone. revert i.
  induction Hdone as [|d done Hd Hdone IH]; intros i.
  - exists []. split; [constructor |]. simpl.
    destruct (replaceAll optionsAt i more). reflexivity.
  - destruct Hd as [edit [others [He Hone]]].
    assert (Hp : primaryEdit d = Ok edit)
      by (unfold primaryEdit; rewrite He; reflexivity).
    destruct (IH (S i)) as [issued [Hall Heq]].
    eexists (_ :: issued). split.
    + constructor; [| exact Hall].
      exists edit, others, (optionsAt i). split; [exact He | reflexivity].
    + simpl. rewrite Hp, (replaceOf_oneBased (optionsAt i) Hone), Heq. simpl.
      replace (length done + S i)%nat with (S (length done + i)) by lia.
      reflexivity.
Qed.

Lemma replaceAll_stops optionsAt i (done rest : list ScriptFileMarker) m :
  Forall hasOneBasedFirstEdit done ->
  edits (correction m) = [] ->
  snd (replaceAll optionsAt i (map primaryEdit (done ++ m :: rest)))
  = Throw TypeError
  /\ Forall2 replacesFirstEdit done
             (fst (replaceAll optionsAt i (map primaryEdit (done ++ m :: rest)))).
Proof.
  intros Hdone Hm.
  assert (Hp : primaryEdit m = Throw TypeError)
    by (unfold primaryEdit; rewrite Hm; reflexivity).
  rewrite map_app. cbn [map]. rewrite Hp.
  destruct (replaceAll_after optionsAt i done
              (Throw TypeError :: map primaryEdit rest) Hdone)
    as [issued [Hall ->]].
  simpl. rewrite app_nil_r. split; [reflexivity | exact Hall].
Qed.

Lemma replaceOf_belowOne (edit : ScriptRegion) (options : UndoOptions) :
  belowOne edit -> replaceOf edit options = Throw IllegalArgument.
Proof.
  intros H. unfold replaceOf, newRange.
  replace ((startLineNumber edit - 1 <? 0) || (startColumnNumber edit - 1 <? 0)
           || (endLineNumber edit - 1 <? 0) || (endColumnNumber edit - 1 <? 0))
    with true; [reflexivity |].
  symmetry. rewrite !orb_true_iff, !Z.ltb_lt.
  unfold belowOne in H. lia.
Qed.

Lemma replaceAll_refused optionsAt i (done rest : list ScriptFileMarker) m
      edit others :
  Forall hasOneBasedFirstEdit done ->
  edits (correction m) = edit :: others ->
  belowOne edit ->
  snd (replaceAll optionsAt i (map primaryEdit (done ++ m :: rest)))
  = Throw IllegalArgument
  /\ Forall2 replacesFirstEdit done
             (fst (replaceAll optionsAt i (map primaryEdit (done ++ m :: rest)))).
Proof.
  intros Hdone Hm Hbelow.
  assert (Hp : primaryEdit m = Ok edit)
    by (unfold primaryEdit; rewrite Hm; reflexivity).
  rewrite map_app. cbn [map]. rewrite Hp.
  destruct (replaceAll_after optionsAt i done
              (Ok edit :: map primaryEdit rest) Hdone)
    as [issued [Hall ->]].
  cbn [replaceAll]. rewrite (replaceOf_belowOne edit _ Hbelow). simpl.
  rewrite app_nil_r. split; [reflexivity | exact Hall].
Qed.

(** X6. When a marker of the list has no correction edit, and the
    markers before it have first edits with 1-based numbers, the edits of
    the markers before it are issued, one per marker and from their first
    correction edits, and the chain then ends with a [TypeError]; nothing
    is issued for that marker or for the markers after it. *)
Theorem applyEdit_stops_at_marker_without_edits
    (this : PSDocumentFormattingEditProvider)
    (done rest : list ScriptFileMarker) (m : ScriptFileMarker)
    (ruleIndex : nat) :
  Forall hasOneBasedFirstEdit done ->
  edits (correction m) = [] ->
  snd (applyEdit this (done ++ m :: rest) 0 ruleIndex) = Throw TypeError
  /\ Forall2 replacesFirstEdit done
             (fst (applyEdit this (done ++ m :: rest) 0 ruleIndex)).
Proof.
  intros Hdone Hm. rewrite applyEdit_replaceAll.
  apply replaceAll_stops; assumption.
Qed.

Lemma applyEdit_stops_at_marker_without_edits_witness :
  snd (applyEdit (newProvider true) ([line 10 "a"] ++ bare 7 :: [line 5 "c"]) 0 0)
  = Throw TypeError
  /\ Forall2 replacesFirstEdit [line 10 "a"]
       (fst (applyEdit (newProvider true)
               ([line 10 "a"] ++ bare 7 :: [line 5 "c"]) 0 0)).
Proof.
  apply applyEdit_stops_at_marker_without_edits.
  - one_based_markers.
  - reflexivity.
Defined.

(** X17. A first correction edit with a line or column number below 1
    stops the chain as well: [new vscode.Range] refuses the negative
    number, so after the replacements of the markers before it (whose
    first edits are 1-based) the chain ends with the illegal argument
    error, and nothing is issued for that marker or the markers after
    it. *)
Theorem applyEdit_stops_at_edit_below_one
    (this : PSDocumentFormattingEditProvider)
    (done rest : list ScriptFileMarker) (m : ScriptFileMarker)
    (edit : ScriptRegion) (others : list ScriptRegion) (ruleIndex : nat) :
  Forall hasOneBasedFirstEdit done ->
  edits (correction m) = edit :: others ->
  belowOne edit ->
  snd (applyEdit this (done ++ m :: rest) 0 ruleIndex) = Throw IllegalArgument
  /\ Forall2 replacesFirstEdit done
             (fst (applyEdit this (done ++ m :: rest) 0 ruleIndex)).
Proof.
  intros Hdone Hm Hbelow. rewrite applyEdit_replaceAll.
  eapply replaceAll_refused; eassumption.
Qed.

Lemma applyEdit_stops_at_edit_below_one_witness :
  snd (applyEdit (newProvider true) ([line 10 "a"] ++ line 0 "z" :: [line 5 "c"])
         0 0)
  = Throw IllegalArgument
  /\ Forall2 replacesFirstEdit [line 10 "a"]
       (fst (applyEdit (newProvider true)
               ([line 10 "a"] ++ line 0 "z" :: [line 5 "c"]) 0 0)).
Proof.
  apply (applyEdit_stops_at_edit_below_one (newProvider true) [line 10 "a"]
           [line 5 "c"] (line 0 "z") (mkScriptRegion "f" "z" 0 1 0 0 2 1) []).
  - one_based_markers.
  - reflexivity.
  - left. simpl. lia.
Defined.

Lemma replaceAll_undoFlags optionsAt i (markers : list ScriptFileMarker) :
  Forall hasOneBasedFirstEdit markers ->
  undoFlags (fst (replaceAll optionsAt i (map primaryEdit markers)))
  = map (fun j => (undoStopBefore (optionsAt j), undoStopAfter (optionsAt j)))
        (seq i (length markers)).
Proof.
  intros H. revert i. induction H as [|m rest Hm Hrest IH]; simpl; intros i.
  - reflexivity.
  - destruct Hm as [edit [others [He Hone]]].
    assert (Hp : primaryEdit m = Ok edit)
      by (unfold primaryEdit; rewrite He; reflexivity).
    rewrite Hp, (replaceOf_oneBased (optionsAt i) Hone). simpl.
    rewrite IH. reflexivity.
Qed.

(** X7. In a pass over [n] markers whose first edits have 1-based
    numbers, for rule [ruleIndex], edit number [i] (from 0) stops the undo group before it exactly when aggregation is off
    or it is edit 0 of rule 0, and stops it after exactly when aggregation
    is off or it is edit [n - 1] of rule 2.  So with aggregation on a pass
    has at most one edit with either flag, and a pass of rule 1 has
    none. *)
Theorem undo_flags_of_a_pass (this : PSDocumentFormattingEditProvider)
    (markers : list ScriptFileMarker) (ruleIndex : nat) :
  Forall hasOneBasedFirstEdit markers ->
  undoFlags (fst (applyEdit this markers 0 ruleIndex))
  = map (flagsAt (aggregateUndoStop this) ruleIndex (length markers))
        (seq 0 (length markers)).
Proof.
  intros H. rewrite applyEdit_replaceAll, (replaceAll_undoFlags _ _ _ H).
  apply map_ext. intros j. reflexivity.
Qed.

Lemma undo_flags_of_a_pass_witness :
  undoFlags (fst (applyEdit (newProvider true)
                    [line 10 "a"; line 5 "c"; line 2 "d"] 0 2))
  = map (flagsAt true 2 3) (seq 0 3).
Proof.
  apply (undo_flags_of_a_pass (newProvider true)
           [line 10 "a"; line 5 "c"; line 2 "d"] 2).
  one_based_markers.
Defined.

Lemma StronglySorted_Forall2 {X Y : Type} (R : X -> Y -> Prop)
      (P : X -> X -> Prop) (Q : Y -> Y -> Prop) (l : list X) (l' : list Y) :
  (forall a b a' b', R a a' -> R b b' -> P a b -> Q a' b') ->
  Forall2 R l l' -> StronglySorted P l -> StronglySorted Q l'.
Proof.
  intros HPQ Hall. induction Hall as [|a a' l l' Ha Hall IH]; intros Hs.
  - constructor.
  - apply StronglySorted_inv in Hs. destruct Hs as [Hrest Hhead].
    constructor; [apply IH, Hrest |].
    clear IH Hrest. induction Hall as [|b b' l l' Hb Hall IH].
    + constructor.
    + inversion Hhead as [|? ? Hab Hhead']; subst.
      constructor; [eapply HPQ; eassumption | apply IH, Hhead'].
Qed.

Lemma replacesFirstEdit_line m ev :
  replacesFirstEdit m ev ->
  exists l, startLineOf m = Ok l /\ replacedLine ev = Some (l - 1).
Proof.
  intros [edit [others [options [He ->]]]].
  exists (startLineNumber edit). split; [| reflexivity].
  unfold startLineOf, primaryEdit. rewrite He. reflexivity.
Qed.

(** X8. The edits of a pass go up the document: when the first edits of
    the batch have 1-based numbers, the kept markers of the batch are all
    applied, and each replacement starts on a line strictly
    above (smaller than) the lines of the replacements issued before it,
    so no edit of the pass moves the lines of an edit still to come. *)
Theorem pass_edits_go_bottom_up (this : PSDocumentFormattingEditProvider)
    (batch : list ScriptFileMarker) (ruleIndex : nat) :
  Forall hasOneBasedFirstEdit batch ->
  exists kept,
    keptMarkers batch = Ok kept
    /\ snd (applyEdit this kept 0 ruleIndex) = Ok tt
    /\ length (fst (applyEdit this kept 0 ruleIndex)) = length kept
    /\ StronglySorted replacesAbove (fst (applyEdit this kept 0 ruleIndex)).
Proof.
  intros H.
  pose proof (oneBased_hasFirstEdit batch H) as Hfirst.
  eexists. split; [apply keptMarkers_total, Hfirst |].
  set (kept := uniqueDesc _ _).
  assert (Hk : keptMarkers batch = Ok kept)
    by (apply keptMarkers_total, Hfirst).
  assert (Hedits : Forall hasOneBasedFirstEdit kept).
  { rewrite Forall_forall in *. intros m Hm.
    apply H, (kept_incl startLineOf batch kept Hk), Hm. }
  rewrite applyEdit_replaceAll.
  destruct (replaceAll_first_edits
              (fun i => undoOptionsAt this kept i ruleIndex) 0 Hedits)
    as [Hok Hall].
  split; [exact Hok |]. split.
  - symmetry. eapply Forall2_length, Hall.
  - eapply StronglySorted_Forall2; [| exact Hall | eapply keptOf_sorted, Hk].
    intros a b a' b' Ha Hb [la [lb [Hla [Hlb Hlt]]]].
    destruct (replacesFirstEdit_line _ _ Ha) as [la' [Hla' Hra]].
    destruct (replacesFirstEdit_line _ _ Hb) as [lb' [Hlb' Hrb]].
    exists (la' - 1), (lb' - 1). split; [exact Hra |]. split; [exact Hrb |].
    rewrite Hla in Hla'. rewrite Hlb in Hlb'.
    injection Hla' as <-. injection Hlb' as <-. lia.
Qed.

Lemma pass_edits_go_bottom_up_witness :
  exists kept,
    keptMarkers [line 5 "c"; line 10 "a"; line 10 "b"] = Ok kept
    /\ snd (applyEdit (newProvider true) kept 0 0) = Ok tt
    /\ length (fst (applyEdit (newProvider true) kept 0 0)) = length kept
    /\ StronglySorted replacesAbove (fst (applyEdit (newProvider true) kept 0 0)).
Proof.
  apply pass_edits_go_bottom_up.
  one_based_markers.
Defined.

(** ** More on the scheduler *)

Lemma adopt_adopt (c : Completion) : adopt (adopt c) = adopt c.
Proof. destruct c; reflexivity. Qed.

Lemma requestsOf_app (l1 l2 : list Event) :
  requestsOf (l1 ++ l2) = requestsOf l1 ++ requestsOf l2.
Proof.
  induction l1 as [|[filePath blob | range newText options] rest IH]; simpl.
  - reflexivity.
  - rewrite IH. reflexivity.
  - exact IH.
Qed.

Lemma replaceAll_events optionsAt i (markers : list ScriptFileMarker) ev :
  In ev (fst (replaceAll optionsAt i (map primaryEdit markers))) ->
  exists m, In m markers /\ replacesFirstEdit m ev.
Proof.
  revert i. induction markers as [|m rest IH]; simpl; intros i Hin.
  - contradiction.
  - unfold primaryEdit in Hin at 1.
    destruct (edits (correction m)) as [|edit others] eqn:He; simpl in Hin.
    + contradiction.
    + destruct (replaceOf edit (optionsAt i)) as [replacement | e] eqn:Hr;
        simpl in Hin; [| contradiction].
      apply replaceOf_ok_inv in Hr. subst replacement.
      destruct Hin as [<- | Hin].
      * exists m. split; [left; reflexivity |].
        exists edit, others, (optionsAt i). split; [exact He | reflexivity].
      * destruct (IH (S i) Hin) as [m' [Hm' Hr]].
        exists m'. split; [right; exact Hm' | exact Hr].
Qed.

Lemma applyEdit_events this (markers : list ScriptFileMarker) ruleIndex ev :
  In ev (fst (applyEdit this markers 0 ruleIndex)) ->
  exists m, In m markers /\ replacesFirstEdit m ev.
Proof. rewrite applyEdit_replaceAll. apply replaceAll_events. Qed.

Lemma applyEdit_no_requests this (markers : list ScriptFileMarker) ruleIndex :
  requestsOf (fst (applyEdit this markers 0 ruleIndex)) = [].
Proof.
  assert (H : forall evs : list Event,
             (forall ev, In ev evs -> exists m, replacesFirstEdit m ev) ->
             requestsOf evs = []).
  { induction evs as [|ev rest IH]; simpl; intros Hall.
    - reflexivity.
    - destruct (Hall ev (or_introl eq_refl)) as [m [e [o [u [_ ->]]]]].
      apply IH. intros ev' Hev'. apply Hall. right. exact Hev'. }
  apply H. intros ev Hev.
  destruct (applyEdit_events _ _ _ _ Hev) as [m [_ Hm]].
  exists m. exact Hm.
Qed.



Lemma deduplicateMarkers_kept batch markers uniqueMarkers :
  deduplicateMarkers batch = Ok (markers, uniqueMarkers) ->
  keptMarkers batch = Ok uniqueMarkers.
Proof.
  unfold keptMarkers, keptOf, fmap, deduplicateMarkers. intros ->. reflexivity.
Qed.

(** One pass over a batch whose markers all have a 1-based first edit. *)
Lemma pass_of_batch this (batch : list ScriptFileMarker) (index : nat) :
  Forall hasOneBasedFirstEdit batch ->
  exists markers uniqueMarkers,
    deduplicateMarkers batch = Ok (markers, uniqueMarkers)
    /\ snd (applyEdit this uniqueMarkers 0 index) = Ok tt
    /\ (NoDup (map startLineOf batch) ->
        nextIndex uniqueMarkers markers index = S index)
    /\ (~ NoDup (map startLineOf batch) ->
        nextIndex uniqueMarkers markers index = index).
Proof.
  intros H. pose proof (oneBased_hasFirstEdit batch H) as Hfirst.
  do 2 eexists. split; [apply deduplicateMarkers_total, Hfirst |].
  set (k := lineOr0 startLineOf).
  assert (Hk : keptMarkers batch = Ok (uniqueDesc k (sortDesc k batch)))
    by (apply keptMarkers_total, Hfirst).
  split.
  - rewrite applyEdit_replaceAll.
    apply replaceAll_first_edits.
    rewrite Forall_forall in *. intros m Hm.
    apply H, (kept_incl startLineOf batch _ Hk), Hm.
  - pose proof (kept_all_iff_distinct startLineOf batch _ Hk) as Hiff.
    fold k in Hiff.
    pose proof (uniqueDesc_length k (sortDesc k batch)) as Hle.
    rewrite (nextIndex_spec _ _ index Hle).
    rewrite (sortDesc_length k batch) in *.
    destruct (Nat.ltb_spec (length (uniqueDesc k (sortDesc k batch)))
                           (length batch)); split; intros Hnd.
    + apply Hiff in Hnd. lia.
    + reflexivity.
    + reflexivity.
    + exfalso. apply Hnd, Hiff. lia.
Qed.

Lemma skipn_nth_error {X : Type} (l : list X) (i : nat) (x : X) :
  nth_error l i = Some x -> skipn i l = x :: skipn (S i) l.
Proof.
  revert i. induction l as [|y rest IH]; intros [|i]; simpl; intros H;
    try discriminate.
  - injection H as ->. reflexivity.
  - apply IH, H.
Qed.

Section RunsWithClient.

Variable this : PSDocumentFormattingEditProvider.
Variable settings : ISettings.
Variable document : TextDocument.
Variable options : FormattingOptions.
Variable sendRequest : Service.
Hypothesis client : languageClient this = Client sendRequest.

Lemma executeRulesInOrder_end fuel index history :
  nth_error ruleOrder index = None ->
  executeRulesInOrder fuel this settings document options index history
  = mkRun history [] (Returned TextEdit_0).
Proof.
  intros H. destruct fuel; simpl; rewrite client, H; reflexivity.
Qed.

Lemma collision_free_passes :
  collisionFree sendRequest ->
  forall fuel index history,
    (index <= 3)%nat -> (3 <= fuel + index)%nat ->
    let run := executeRulesInOrder fuel this settings document options index
                 history in
    adopt (completion run) = Thenable (Fulfilled TextEdit_0)
    /\ map passIndex (passes run) = seq index (3 - index)
    /\ requestsOf (log run)
       = requestsOf history
         ++ map (fun rule => (fileName document, getSettings settings rule))
                (skipn index ruleOrder).
Proof.
  intros Hfree. induction fuel as [|fuel IH]; intros index history Hidx Hfuel.
  - assert (index = 3%nat) by lia. subst index.
    rewrite executeRulesInOrder_end by reflexivity. simpl.
    rewrite app_nil_r. repeat split.
  - destruct (nth_error ruleOrder index) as [rule |] eqn:Hrule.
    + assert (Hlt : (index < 3)%nat).
      { apply (nth_error_Some ruleOrder index). congruence. }
      destruct (Hfree (history ++ [SendRequest (fileName document)
                                              (getSettings settings rule)]))
        as [batch [Hresp [Hedits Hnd]]].
      destruct (pass_of_batch this batch index Hedits)
        as [markers [uniqueMarkers [Hd [Hok [Hnext _]]]]].
      rewrite (@executeRulesInOrder_pass fuel this settings document options
                 index history sendRequest rule batch markers uniqueMarkers
                 client Hrule Hresp Hd Hok).
      rewrite (Hnext Hnd).
      destruct (IH (S index)
                   ((history ++ [SendRequest (fileName document)
                                             (getSettings settings rule)])
                    ++ fst (applyEdit this uniqueMarkers 0 index)))
        as [Hc [Hp Hr]]; [lia | lia |].
      cbv zeta. unfold withPass. cbn [passes completion log map passIndex].
      rewrite adopt_adopt. split; [exact Hc |]. split.
      * rewrite Hp. replace (3 - index)%nat with (S (3 - S index)) by lia.
        reflexivity.
      * rewrite Hr, !requestsOf_app, applyEdit_no_requests.
        rewrite (skipn_nth_error _ _ _ Hrule). simpl.
        rewrite app_nil_r, <- app_assoc. reflexivity.
    + assert (index = 3%nat).
      { apply nth_error_None in Hrule. simpl in Hrule. lia. }
      subst index.
      rewrite executeRulesInOrder_end by reflexivity. simpl.
      rewrite app_nil_r. repeat split.
Qed.

Lemma colliding_passes :
  alwaysColliding sendRequest ->
  forall fuel history,
    let run := executeRulesInOrder fuel this settings document options 0
                 history in
    completion run = Thenable Pending
    /\ map passIndex (passes run) = repeat 0%nat fuel
    /\ length (requestsOf (log run)) = (length (requestsOf history) + S fuel)%nat.
Proof.
  intros Hcol. induction fuel as [|fuel IH]; intros history.
  - simpl. rewrite client. simpl. rewrite requestsOf_app, length_app. simpl.
    repeat split.
  - destruct (Hcol (history ++ [SendRequest (fileName document)
                                            (getSettings settings
                                               PSPlaceCloseBrace)]))
      as [batch [Hresp [Hedits Hnd]]].
    destruct (pass_of_batch this batch 0 Hedits)
      as [markers [uniqueMarkers [Hd [Hok [_ Hnext]]]]].
    rewrite (@executeRulesInOrder_pass fuel this settings document options
               0 history sendRequest PSPlaceCloseBrace batch markers
               uniqueMarkers client eq_refl Hresp Hd Hok).
    rewrite (Hnext Hnd).
    destruct (IH ((history ++ [SendRequest (fileName document)
                                           (getSettings settings
                                              PSPlaceCloseBrace)])
                  ++ fst (applyEdit this uniqueMarkers 0 0)))
      as [Hc [Hp Hr]].
    cbv zeta. unfold withPass. cbn [passes completion log map passIndex].
    rewrite Hc. split; [reflexivity |]. split.
    + rewrite Hp. reflexivity.
    + rewrite Hr, !requestsOf_app, applyEdit_no_requests, !length_app. simpl. lia.
Qed.


End RunsWithClient.

(** X9. When no answer of the service has two markers on one line (and
    every marker has a first correction edit with 1-based line and column
    numbers), a formatting run ends: each
    rule is requested exactly once, in the rule order, there is one pass
    per rule, and the promise is fulfilled.  Three answered requests are
    enough. *)
Theorem collision_free_run_completes
    (this : PSDocumentFormattingEditProvider) (settings : ISettings)
    (document : TextDocument) (options : FormattingOptions)
    (token : CancellationToken) (sendRequest : Service) (fuel : nat) :
  languageClient this = Client sendRequest ->
  collisionFree sendRequest ->
  (3 <= fuel)%nat ->
  let run := provideDocumentFormattingEdits fuel this settings document
               options token in
  completion run = Thenable (Fulfilled TextEdit_0)
  /\ map passIndex (passes run) = [0; 1; 2]%nat
  /\ requestsOf (log run)
     = map (fun rule => (fileName document, getSettings settings rule))
           ruleOrder.
Proof.
  intros Hclient Hfree Hfuel run. subst run.
  unfold provideDocumentFormattingEdits.
  destruct (collision_free_passes this settings document options sendRequest
              Hclient Hfree fuel 0 []) as [Hc [Hp Hr]]; [lia | lia |].
  split; [| split; [exact Hp | exact Hr]].
  pose proof (@executeRulesInOrder_client_thenable fuel this settings document
                options [] sendRequest Hclient) as Hsync.
  destruct (completion _) as [v | s | e]; simpl in *;
    [discriminate Hsync | exact Hc | discriminate Hsync].
Qed.

Lemma collision_free_run_completes_witness :
  let run := provideDocumentFormattingEdits 3 (connected oneEachService)
               settings0 document0 options0 token0 in
  completion run = Thenable (Fulfilled TextEdit_0)
  /\ map passIndex (passes run) = [0; 1; 2]%nat
  /\ requestsOf (log run)
     = map (fun rule => (fileName document0, getSettings settings0 rule))
           ruleOrder.
Proof.
  apply (collision_free_run_completes (connected oneEachService) settings0
           document0 options0 token0 oneEachService 3).
  - reflexivity.
  - intros history. unfold oneEachService.
    destruct (length history) as [|[|[|[|[|[|n]]]]]];
      eexists; (split; [reflexivity |]);
      (split; [one_based_markers |]);
      repeat (constructor; [simpl; intros []|]); constructor.
  - lia.
Defined.

(** X10. When every answer of the service has two markers on one line
    (all first edits being present, with 1-based numbers), the
    scheduler never leaves the first rule: however many requests are
    answered, all passes are passes of rule 0, one more request is out,
    and the promise is still pending.  Nothing bounds the number of
    passes of a rule. *)
Theorem colliding_service_never_advances
    (this : PSDocumentFormattingEditProvider) (settings : ISettings)
    (document : TextDocument) (options : FormattingOptions)
    (token : CancellationToken) (sendRequest : Service) (fuel : nat) :
  languageClient this = Client sendRequest ->
  alwaysColliding sendRequest ->
  let run := provideDocumentFormattingEdits fuel this settings document
               options token in
  completion run = Thenable Pending
  /\ map passIndex (passes run) = repeat 0%nat fuel
  /\ length (requestsOf (log run)) = S fuel.
Proof.
  intros Hclient Hcol.
  apply (colliding_passes this settings document options sendRequest
           Hclient Hcol fuel []).
Qed.

Lemma colliding_service_never_advances_witness :
  let run := provideDocumentFormattingEdits 7 (connected stuckService)
               settings0 document0 options0 token0 in
  completion run = Thenable Pending
  /\ map passIndex (passes run) = repeat 0%nat 7
  /\ length (requestsOf (log run)) = 8%nat.
Proof.
  apply (colliding_service_never_advances (connected stuckService) settings0
           document0 options0 token0 stuckService 7).
  - reflexivity.
  - intros history. exists [line 10 "a"; line 10 "b"].
    split; [reflexivity |]. split.
    + one_based_markers.
    + intros Hnd. inversion Hnd as [|? ? Hnotin _]; subst.
      apply Hnotin. left. reflexivity.
Defined.

(** ** What a run adds to the log *)

Section RunLog.

Variable this : PSDocumentFormattingEditProvider.
Variable settings : ISettings.
Variable document : TextDocument.
Variable options : FormattingOptions.
Variable P : Event -> Prop.

Hypothesis requests_ok :
  forall rule, In rule ruleOrder ->
               P (SendRequest (fileName document) (getSettings settings rule)).

Hypothesis edits_ok :
  forall sendRequest history batch m ev,
    languageClient this = Client sendRequest ->
    sendRequest history = Markers batch ->
    In m batch ->
    replacesFirstEdit m ev ->
    P ev.

Lemma run_adds fuel :
  forall index history,
  exists added,
    log (executeRulesInOrder fuel this settings document options index history)
    = history ++ added
    /\ Forall P added.
Proof.
  assert (Hnone : forall history : list Event,
             exists added, history = history ++ added /\ Forall P added).
  { intros history. exists []. rewrite app_nil_r. split; [reflexivity | constructor]. }
  induction fuel as [|fuel IH]; intros index history; simpl.
  - destruct (languageClient this) as [| |sendRequest]; simpl.
    + destruct (index <? _)%nat; apply Hnone.
    + apply Hnone.
    + destruct (nth_error ruleOrder index) as [rule |] eqn:Hrule; simpl;
        [| apply Hnone].
      eexists. split; [reflexivity |].
      constructor; [| constructor].
      eapply requests_ok, nth_error_In, Hrule.
  - destruct (languageClient this) as [| |sendRequest] eqn:Hclient; simpl.
    + destruct (index <? _)%nat; apply Hnone.
    + apply Hnone.
    + destruct (nth_error ruleOrder index) as [rule |] eqn:Hrule; simpl;
        [| apply Hnone].
      assert (Hreq : P (SendRequest (fileName document)
                                    (getSettings settings rule)))
        by (eapply requests_ok, nth_error_In, Hrule).
      destruct (sendRequest _) as [batch | reason] eqn:Hresp; simpl.
      * destruct (deduplicateMarkers batch) as [[markers uniqueMarkers] | e]
          eqn:Hd; simpl.
        -- assert (Hevs : Forall P (fst (applyEdit this uniqueMarkers 0 index))).
           { apply Forall_forall. intros ev Hev.
             destruct (applyEdit_events _ _ _ _ Hev) as [m [Hm Hr]].
             eapply edits_ok; [reflexivity | exact Hresp | | exact Hr].
             apply (kept_incl startLineOf batch uniqueMarkers
                      (deduplicateMarkers_kept _ _ _ Hd)), Hm. }
           destruct (snd (applyEdit this uniqueMarkers 0 index)); simpl.
           ++ destruct (IH (nextIndex uniqueMarkers markers index)
                           ((history ++ [SendRequest (fileName document)
                                                     (getSettings settings rule)])
                            ++ fst (applyEdit this uniqueMarkers 0 index)))
                as [added [Hlog Hadded]].
              rewrite Hlog. eexists.
              split; [rewrite <- !app_assoc; reflexivity |].
              constructor; [exact Hreq |].
              apply Forall_app. split; assumption.
           ++ eexists. split; [rewrite <- app_assoc; reflexivity |].
              constructor; [exact Hreq | exact Hevs].
        -- eexists. split; [reflexivity |]. constructor; [exact Hreq | constructor].
      * eexists. split; [reflexivity |]. constructor; [exact Hreq | constructor].
Qed.

End RunLog.

(** X12. A run only adds to the log it starts from, and every request it
    sends names the file of the document being formatted and carries the
    settings blob of one of the rules of the rule order. *)
Theorem run_requests_are_for_the_document
    (fuel : nat) (this : PSDocumentFormattingEditProvider)
    (settings : ISettings) (document : TextDocument)
    (options : FormattingOptions) (index : nat) (history : list Event) :
  exists added,
    log (executeRulesInOrder fuel this settings document options index history)
    = history ++ added
    /\ Forall (requestFor settings document) added.
Proof.
  apply run_adds.
  - intros rule Hin. simpl. split; [reflexivity |]. exists rule. split; [exact Hin | reflexivity].
  - intros sendRequest h batch m ev _ _ _ [e [o [u [_ ->]]]]. exact I.
Qed.

(** ** Requests that fail, and where edits come from *)



Lemma editsJustified_after sendRequest (evs : list Event) :
  forall (seen : list Event) (current : list ScriptFileMarker)
         (later : list Event),
    Forall (fun ev => exists m, In m current /\ replacesFirstEdit m ev) evs ->
    editsJustified sendRequest (seen ++ evs) current later ->
    editsJustified sendRequest seen current (evs ++ later).
Proof.
  induction evs as [|ev evs IH]; intros seen current later Hall Hlater.
  - rewrite app_nil_r in Hlater. exact Hlater.
  - inversion Hall as [|? ? Hev Hall']; subst.
    pose proof Hev as [m [Hm [edit [others [options [He ->]]]]]].
    simpl. split; [exact Hev |].
    apply IH; [exact Hall' |].
    rewrite <- app_assoc. exact Hlater.
Qed.

Section RunsWithClientLog.

Variable this : PSDocumentFormattingEditProvider.
Variable settings : ISettings.
Variable document : TextDocument.
Variable options : FormattingOptions.
Variable sendRequest : Service.
Hypothesis client : languageClient this = Client sendRequest.



Lemma run_edits_justified :
  forall fuel index history current,
  exists added,
    log (executeRulesInOrder fuel this settings document options index history)
    = history ++ added
    /\ editsJustified sendRequest history current added.
Proof.
  assert (Hnone : forall (history : list Event) current,
             exists added, history = history ++ added
                           /\ editsJustified sendRequest history current added).
  { intros history current. exists []. rewrite app_nil_r.
    split; [reflexivity | exact I]. }
  induction fuel as [|fuel IH]; intros index history current; simpl;
    rewrite client.
  - destruct (nth_error ruleOrder index) as [rule |]; simpl; [| apply Hnone].
    eexists. split; [reflexivity | exact I].
  - destruct (nth_error ruleOrder index) as [rule |]; simpl; [| apply Hnone].
    destruct (sendRequest (history ++ [SendRequest (fileName document)
                                                   (getSettings settings rule)]))
      as [batch | reason]
      eqn:Hresp; simpl.
    + destruct (deduplicateMarkers batch) as [[markers uniqueMarkers] | e]
        eqn:Hd; simpl.
      * assert (Hevs : Forall (fun ev => exists m, In m batch
                                                  /\ replacesFirstEdit m ev)
                              (fst (applyEdit this uniqueMarkers 0 index))).
        { apply Forall_forall. intros ev Hev.
          destruct (applyEdit_events _ _ _ _ Hev) as [m [Hm Hr]].
          exists m. split; [| exact Hr].
          apply (kept_incl startLineOf batch uniqueMarkers
                   (deduplicateMarkers_kept _ _ _ Hd)), Hm. }
        destruct (snd (applyEdit this uniqueMarkers 0 index)); simpl.
        -- destruct (IH (nextIndex uniqueMarkers markers index)
                        ((history ++ [SendRequest (fileName document)
                                                  (getSettings settings rule)])
                         ++ fst (applyEdit this uniqueMarkers 0 index))
                        batch)
             as [added [Hlog Hadded]].
           rewrite Hlog. eexists.
           split; [rewrite <- !app_assoc; reflexivity |].
           simpl. rewrite Hresp.
           apply editsJustified_after; assumption.
        -- eexists. split; [rewrite <- app_assoc; reflexivity |].
           simpl. rewrite Hresp.
           rewrite <- (app_nil_r (fst _)).
           apply editsJustified_after; [exact Hevs | exact I].
      * eexists. split; [reflexivity | exact I].
    + eexists. split; [reflexivity | exact I].
Qed.

End RunsWithClientLog.



(** X13. The formatter never edits on its own account: without a
    language client a run leaves the log empty, and with one every
    replacement in the log of the run is the replacement of the first
    correction edit of a marker of the batch that the service gave in
    answer to the latest request of the run before that replacement. *)
Theorem every_edit_comes_from_the_service
    (fuel : nat) (this : PSDocumentFormattingEditProvider)
    (settings : ISettings) (document : TextDocument)
    (options : FormattingOptions) (token : CancellationToken) :
  let run := provideDocumentFormattingEdits fuel this settings document
               options token in
  match languageClient this with
  | Client sendRequest => editsJustified sendRequest [] [] (log run)
  | Unset => log run = []
  | Null => log run = []
  end.
Proof.
  intros run. subst run. unfold provideDocumentFormattingEdits.
  destruct (languageClient this) as [| |sendRequest] eqn:Hclient.
  - destruct fuel; simpl; rewrite Hclient; reflexivity.
  - destruct fuel; simpl; rewrite Hclient; reflexivity.
  - destruct (run_edits_justified this settings document options sendRequest
                Hclient fuel 0 [] []) as [added [Hlog Hall]].
    rewrite Hlog. exact Hall.
Qed.

Section BlobFacts.
Local Open Scope string_scope.

Lemma append_cancel_l (a b c : string) : a ++ b = a ++ c -> b = c.
Proof.
  induction a as [|x a IH]; simpl; intros H.
  - exact H.
  - injection H as H. apply IH, H.
Qed.

Lemma length_append (a b : string) :
  String.length (a ++ b) = (String.length a + String.length b)%nat.
Proof. induction a as [|x a IH]; simpl; [reflexivity | rewrite IH; reflexivity]. Qed.

Lemma append_cancel_r (a b c : string) : a ++ c = b ++ c -> a = b.
Proof.
  revert b. induction a as [|x a IH]; intros [|y b] H; simpl in H.
  - reflexivity.
  - exfalso. apply (f_equal String.length) in H. simpl in H.
    rewrite length_append in H. lia.
  - exfalso. apply (f_equal String.length) in H. simpl in H.
    rewrite length_append in H. lia.
  - injection H as -> H. rewrite (IH b H). reflexivity.
Qed.

Lemma numberToString_inj (z1 z2 : Z) :
  numberToString z1 = numberToString z2 -> z1 = z2.
Proof.
  unfold numberToString. intros H.
  apply DecimalZ.to_int_inj.
  assert (Hs : forall z, DecimalString.NilZero.int_of_string
                           (DecimalString.NilZero.string_of_int (Z.to_int z))
                         = Some (Z.to_int z)).
  { intros z. apply DecimalString.NilZero.isi; destruct z; simpl; try discriminate.
    - intros [= Hn]. eapply DecimalPos.Unsigned.to_uint_nonnil, Hn.
    - intros [= Hn]. eapply DecimalPos.Unsigned.to_uint_nonnil, Hn. }
  pose proof (Hs z1) as H1. rewrite H, (Hs z2) in H1.
  injection H1 as H1. symmetry. exact H1.
Qed.

End BlobFacts.

(** ** More on the settings blob *)

Lemma getSettings_includes settings rule :
  getSettings settings rule
  = (("@{" ++ LF ++ spaces 4)
     ++ ("IncludeRules = @('" ++ rule ++ "')" ++ LF)
     ++ (spaces 4 ++ "Rules = @{" ++ LF
         ++ spaces 16 ++ ruleProperty settings rule ++ LF
         ++ spaces 4 ++ "}" ++ LF
         ++ "}"))%string.
Proof. unfold getSettings. repeat rewrite append_assoc. reflexivity. Qed.

Lemma ruleProperty_enables settings rule :
  exists more,
    ruleProperty settings rule
    = ((rule ++ " = @{" ++ LF ++ spaces 20 ++ "Enable = $true" ++ LF)
       ++ more)%string.
Proof.
  unfold ruleProperty.
  destruct (String.eqb rule PSPlaceOpenBrace);
    [| destruct (String.eqb rule PSUseConsistentIndentation)];
    eexists; repeat rewrite append_assoc; reflexivity.
Qed.

(** X14. For every rule name, whether of the rule order or not, the blob
    has the line [IncludeRules = @('rule')] with that rule as its one
    entry, and a block for the rule that starts by enabling it. *)
Theorem getSettings_names_and_enables_rule (settings : ISettings)
    (rule : string) :
  occursIn ("IncludeRules = @('" ++ rule ++ "')" ++ LF)%string
           (getSettings settings rule) = true
  /\ occursIn (rule ++ " = @{" ++ LF ++ spaces 20 ++ "Enable = $true" ++ LF)%string
              (getSettings settings rule) = true.
Proof.
  split.
  - rewrite getSettings_includes. apply occursIn_middle.
  - unfold getSettings.
    destruct (ruleProperty_enables settings rule) as [more ->].
    do 11 apply occursIn_app_r.
    rewrite append_assoc. apply occursIn_here.
Qed.

(** X15. The blob of a rule changes with the settings exactly when a
    setting read by the case of that rule changes: the two brace flags for
    the open-brace rule, the indentation size for the indentation rule,
    and nothing for any other rule name.  Different values of such a
    setting always give different blobs. *)
Theorem getSettings_depends_on_rule_settings (rule : string)
    (s1 s2 : ISettings) :
  getSettings s1 rule = getSettings s2 rule <-> sameForRule rule s1 s2.
Proof.
  unfold sameForRule.
  destruct (String.eqb rule PSPlaceOpenBrace) eqn:Hopen.
  - apply String.eqb_eq in Hopen. subst rule.
    destruct s1 as [[same1 new1 size1]], s2 as [[same2 new2 size2]]. simpl.
    split.
    + destruct same1, new1, same2, new2; intros H;
        first [ split; reflexivity
              | exfalso; vm_compute in H; discriminate H ].
    + intros [-> ->]. reflexivity.
  - destruct (String.eqb rule PSUseConsistentIndentation) eqn:Hindent.
    + apply String.eqb_eq in Hindent. subst rule. split.
      * rewrite !getSettings_indentation. intros H.
        apply append_cancel_l, append_cancel_r in H.
        change ((spaces 20 ++ "IndentationSize = ")
                ++ (numberToString (indentationSize (codeformatting s1)) ++ LF)
                = (spaces 20 ++ "IndentationSize = ")
                  ++ (numberToString (indentationSize (codeformatting s2)) ++ LF))%string
          in H.
        apply append_cancel_l, append_cancel_r in H.
        apply numberToString_inj, H.
      * intros H. unfold getSettings, ruleProperty. simpl. rewrite H. reflexivity.
    + split; [intros _; exact I |]. intros _.
      unfold getSettings, ruleProperty. rewrite Hopen, Hindent. reflexivity.
Qed.

(** ** A batch with a marker that has no correction edit *)

(** X16. A batch is applied as a whole or not at all: when the answer to
    a request holds a marker without any correction edit, no edit of that
    batch is issued, nothing further is requested, and the promise is
    rejected with a [TypeError]. *)
Theorem batch_with_bare_marker_is_not_applied
    (fuel : nat) (this : PSDocumentFormattingEditProvider)
    (settings : ISettings) (document : TextDocument)
    (options : FormattingOptions) (index : nat) (history : list Event)
    (sendRequest : Service) (rule : string)
    (batch : list ScriptFileMarker) :
  languageClient this = Client sendRequest ->
  nth_error ruleOrder index = Some rule ->
  sendRequest (history ++ [SendRequest (fileName document)
                                       (getSettings settings rule)])
  = Markers batch ->
  Exists (fun m => edits (correction m) = []) batch ->
  let run := executeRulesInOrder (S fuel) this settings document options index
               history in
  log run = history ++ [SendRequest (fileName document)
                                    (getSettings settings rule)]
  /\ completion run = Thenable (Rejected TypeError).
Proof.
  intros Hclient Hrule Hresp Hbare run. subst run.
  cbn [executeRulesInOrder]. rewrite Hclient, Hrule. cbv zeta. rewrite Hresp.
  destruct (le_lt_dec 2 (length batch)) as [Hlen | Hlen].
  - rewrite (marker_without_edits_in_batch batch Hlen Hbare). split; reflexivity.
  - destruct batch as [|m [|m' rest]]; simpl in Hlen; try lia.
    + inversion Hbare.
    + inversion Hbare as [? ? Hm | ? ? Hnil]; subst; [| inversion Hnil].
      change (deduplicateMarkers [m]) with (Ok ([m], [m])).
      cbv iota beta.
      rewrite (applyEdit_no_first_edit this [] [] m index Hm : 
                 applyEdit this [m] 0 index = ([], Throw TypeError)).
      simpl. rewrite app_nil_r. split; reflexivity.
Qed.

Lemma batch_with_bare_marker_is_not_applied_witness :
  let run := executeRulesInOrder 1
               (connected (fun _ => Markers [line 10 "a"; bare 7]))
               settings0 document0 options0 0 [] in
  log run = [] ++ [SendRequest (fileName document0)
                               (getSettings settings0 PSPlaceCloseBrace)]
  /\ completion run = Thenable (Rejected TypeError).
Proof.
  apply (batch_with_bare_marker_is_not_applied 0
           (connected (fun _ => Markers [line 10 "a"; bare 7]))
           settings0 document0 options0 0 []
           (fun _ => Markers [line 10 "a"; bare 7]) PSPlaceCloseBrace
           [line 10 "a"; bare 7]).
  - reflexivity.
  - reflexivity.
  - reflexivity.
  - right. left. reflexivity.
Defined.
